(** * CCotti: the IPC wrappers and the HTTP monitoring server

    A shallow embedding of [src/sem.cpp], [include/msg_queue.h],
    [src/signal.cpp] and [src/httpserver.cpp], and the properties of the
    specification that concern them.

    Layout: the first half holds the model (C library functions the code
    calls, the System V IPC objects, the [Sem] and [MsgQueue] handles, the
    HTTP server); the second half holds the lemmas and theorems. *)

From Stdlib Require Import ZArith Lia List Ascii String Bool DecimalString.
From stdpp Require Import gmap strings.
Import ListNotations.

Open Scope string_scope.
Open Scope list_scope.
Open Scope Z_scope.

(* ===================================================================== *)
(** * Part I: the model                                                    *)
(* ===================================================================== *)

(** ** Outcomes of code that can hit undefined behaviour *)

(** [Fault] stands for a run that passes a null pointer to [strcmp],
    [atoi], [strcpy] or [fclose], or reads past the terminator of a
    message: the behaviour is undefined and the run does not continue. *)
Inductive outcome (A : Type) : Type :=
| Done (a : A)
| Fault.
Arguments Done {A} a.
Arguments Fault {A}.

#[global] Instance outcome_ret : MRet outcome := fun A a => Done a.

#[global] Instance outcome_bind : MBind outcome := fun A B f m =>
  match m with
  | Done a => f a
  | Fault => Fault
  end.

(** A pointer that must not be NULL where it is used. *)
Definition deref {A : Type} (p : option A) : outcome A :=
  match p with
  | Some a => Done a
  | None => Fault
  end.

(** ** The C library functions the sources call *)

Module CLib.

(** Two's complement conversion to a signed integer of [bits] bits. *)
Definition wrap (bits z : Z) : Z :=
  (z + 2 ^ (bits - 1)) mod 2 ^ bits - 2 ^ (bits - 1).

Definition to_int : Z -> Z := wrap 32.
Definition to_short : Z -> Z := wrap 16.
Definition to_char : Z -> Z := wrap 8.

Definition LONG_MAX : Z := 2 ^ 63 - 1.
Definition LONG_MIN : Z := - 2 ^ 63.

Definition NUL : ascii := "000"%char.
Definition LF : ascii := "010"%char.

(** The C string a buffer holds: the bytes before the first NUL. *)
Fixpoint cstr (buf : string) : string :=
  match buf with
  | EmptyString => EmptyString
  | String c rest => if Ascii.eqb c NUL then EmptyString else String c (cstr rest)
  end.

(** [strcspn(s, reject)] for a one-character [reject]. *)
Fixpoint strcspn (s : string) (reject : ascii) : nat :=
  match s with
  | EmptyString => O
  | String c rest => if Ascii.eqb c reject then O else S (strcspn rest reject)
  end.

(** [s[i] = '\0'] on a C string. *)
Definition set_nul (i : nat) (s : string) : string := substring 0 i s.

(** [strstr(s, needle) != NULL] for a one-character [needle]. *)
Fixpoint strstr1 (s : string) (needle : ascii) : bool :=
  match s with
  | EmptyString => false
  | String c rest => Ascii.eqb c needle || strstr1 rest needle
  end.

Fixpoint skip_delim (delim : ascii) (s : string) : string :=
  match s with
  | EmptyString => EmptyString
  | String c rest => if Ascii.eqb c delim then skip_delim delim rest else s
  end.

(** The token at the head of [s] and what follows its delimiter. *)
Fixpoint span_token (delim : ascii) (s : string) : string * string :=
  match s with
  | EmptyString => (EmptyString, EmptyString)
  | String c rest =>
      if Ascii.eqb c delim then (EmptyString, rest)
      else let '(tok, saved) := span_token delim rest in (String c tok, saved)
  end.

(** [strtok] with a one-character delimiter set.  [None] is the NULL
    result; otherwise the token and the position [strtok] keeps for the
    next call with a NULL first argument. *)
Definition strtok (delim : ascii) (s : string) : option (string * string) :=
  match skip_delim delim s with
  | EmptyString => None
  | s' => Some (span_token delim s')
  end.

Definition isspace (c : ascii) : bool :=
  let n := nat_of_ascii c in
  Nat.eqb n 32 || (Nat.leb 9 n && Nat.leb n 13).

Definition isdigit (c : ascii) : bool :=
  let n := nat_of_ascii c in Nat.leb 48 n && Nat.leb n 57.

Fixpoint skip_space (s : string) : string :=
  match s with
  | EmptyString => EmptyString
  | String c rest => if isspace c then skip_space rest else s
  end.

Fixpoint digits (acc : Z) (s : string) : Z :=
  match s with
  | EmptyString => acc
  | String c rest =>
      if isdigit c then digits (10 * acc + (Z.of_nat (nat_of_ascii c) - 48)) rest
      else acc
  end.

(** [strtol(s, NULL, 10)]: leading white space, an optional sign, the
    longest run of digits; out of range values saturate. *)
Definition strtol (s : string) : Z :=
  let v :=
    match skip_space s with
    | String "-" rest => - digits 0 rest
    | String "+" rest => digits 0 rest
    | s' => digits 0 s'
    end in
  Z.max LONG_MIN (Z.min LONG_MAX v).

(** [atoi(s)] is [(int) strtol(s, NULL, 10)]. *)
Definition atoi (s : string) : Z := to_int (strtol s).

(** [fgets(buffer, size, fd)] on the unread part of a stream: at most
    [room = size - 1] characters, stopping after a newline. *)
Fixpoint fgets_chars (room : nat) (stream : string) : string * string :=
  match room, stream with
  | O, _ => (EmptyString, stream)
  | _, EmptyString => (EmptyString, EmptyString)
  | S room', String c rest =>
      if Ascii.eqb c LF then (String c EmptyString, rest)
      else let '(buf, rest') := fgets_chars room' rest in (String c buf, rest')
  end.

(** [None] is the NULL that [fgets] returns at end of file. *)
Definition fgets (size : nat) (stream : string) : option (string * string) :=
  match stream with
  | EmptyString => None
  | _ => Some (fgets_chars (size - 1) stream)
  end.

(** [printf("%d")] and [printf("%ld")]. *)
Definition print_decimal (z : Z) : string := NilZero.string_of_int (Z.to_int z).

End CLib.

(** ** The shared record and the configuration reload ([httpserver.h],
       [HttpServer::update_configuration]) *)

Module Config.
Import CLib.

Definition DEFAULT_BACKLOG : Z := 2.
Definition DEFAULT_MAX_CLIENTS : Z := 1000.
Definition DEFAULT_SENSOR_PERIOD : Z := 1000.
Definition DEFAULT_SAMPLES_MOVING_AVERAGE_FILTER : Z := 5.

Record serverData : Type := mkServerData {
  backlog : Z;
  max_clients : Z;
  sensor_period : Z;
  samples_moving_average_filter : Z;
  client_count : Z
}.

Definition set_backlog (v : Z) (d : serverData) : serverData :=
  mkServerData v (max_clients d) (sensor_period d)
               (samples_moving_average_filter d) (client_count d).
Definition set_max_clients (v : Z) (d : serverData) : serverData :=
  mkServerData (backlog d) v (sensor_period d)
               (samples_moving_average_filter d) (client_count d).
Definition set_sensor_period (v : Z) (d : serverData) : serverData :=
  mkServerData (backlog d) (max_clients d) v
               (samples_moving_average_filter d) (client_count d).
Definition set_samples_moving_average_filter (v : Z) (d : serverData) : serverData :=
  mkServerData (backlog d) (max_clients d) (sensor_period d) v (client_count d).
Definition set_client_count (v : Z) (d : serverData) : serverData :=
  mkServerData (backlog d) (max_clients d) (sensor_period d)
               (samples_moving_average_filter d) v.

(** The record the constructor of [HttpServer] writes into the shared
    memory. *)
Definition initial_data : serverData := mkServerData 0 0 0 0 0.

(** What [update_configuration] prints. *)
Inductive log_msg : Type :=
| WARNING_no_file (path : string)
| WARNING_unknown_key (key : string)
| WARNING_invalid_value (key : string)
| INFO_set (key : string) (value : Z).

Definition is_warning (m : log_msg) : bool :=
  match m with
  | INFO_set _ _ => false
  | _ => true
  end.

(** Lines 204-209: strip the newline, look for the separator, cut the
    line into the key and value tokens.  [None]: no separator, the line is
    skipped.  A token that is [None] is a NULL pointer. *)
Definition line_tokens (buffer : string) : option (option string * option string) :=
  let buffer := cstr buffer in
  let buffer := set_nul (strcspn buffer LF) buffer in
  if negb (strstr1 buffer "=") then None
  else
    match strtok "=" buffer with
    | None => Some (None, None)
    | Some (key, saved) => Some (Some key, fst <$> strtok "=" saved)
    end.

(** Lines 242-246, reached when the branch of the key did not [continue]. *)
Definition report (key : string) (changed_value : Z) : log_msg :=
  if changed_value <=? 0 then WARNING_invalid_value key
  else INFO_set key changed_value.

(** Lines 210-246 for one key/value pair. *)
Definition apply_pair (key value : option string) (d : serverData)
  : outcome (serverData * list log_msg) :=
  key ← deref key;
  if String.eqb key "backlog" then
    value ← deref value;
    let changed_value :=
      if negb (atoi value =? 0) then atoi value else DEFAULT_BACKLOG in
    if changed_value =? backlog d then Done (d, [])
    else if 1 <=? changed_value
         then Done (set_backlog changed_value d, [report key changed_value])
         else Done (d, [report key changed_value])
  else if String.eqb key "max_clients" then
    value ← deref value;
    let changed_value :=
      if negb (atoi value =? 0) then atoi value else DEFAULT_MAX_CLIENTS in
    if changed_value =? max_clients d then Done (d, [])
    else if 1 <=? changed_value
         then Done (set_max_clients changed_value d, [report key changed_value])
         else Done (d, [report key changed_value])
  else if String.eqb key "sensor_period" then
    value ← deref value;
    let changed_value :=
      if negb (atoi value =? 0) then atoi value else DEFAULT_SENSOR_PERIOD in
    if changed_value =? sensor_period d then Done (d, [])
    else if 1 <=? changed_value
         then Done (set_sensor_period changed_value d, [report key changed_value])
         else Done (d, [report key changed_value])
  else if String.eqb key "samples_moving_average_filter" then
    value ← deref value;
    let changed_value :=
      if negb (atoi value =? 0) then atoi value
      else DEFAULT_SAMPLES_MOVING_AVERAGE_FILTER in
    if changed_value =? samples_moving_average_filter d then Done (d, [])
    else if 1 <=? changed_value
         then Done (set_samples_moving_average_filter changed_value d,
                    [report key changed_value])
         else Done (d, [report key changed_value])
  else Done (d, [WARNING_unknown_key key]).

(** The body of the [while] loop for one buffer that [fgets] filled. *)
Definition process_line (buffer : string) (d : serverData)
  : outcome (serverData * list log_msg) :=
  match line_tokens buffer with
  | None => Done (d, [])
  | Some (key, value) => apply_pair key value d
  end.

(** How a run of [update_configuration] ends. *)
Inductive ending : Type :=
| Returned          (* the function returned *)
| Faulted           (* a line made it pass a null pointer to strcmp or atoi *)
| OutOfFuel.        (* the model ran out of fuel; see [read_loop_fuel] *)

Record reload : Type := mkReload {
  shm_after : serverData;      (* the shared record when the run ends *)
  printed : list log_msg;      (* what was printed, in order *)
  how : ending
}.

(** The [while (fgets(buffer, sizeof(buffer), fd) != NULL)] loop. *)
Fixpoint read_loop (fuel : nat) (stream : string) (d : serverData)
         (out : list log_msg) : reload :=
  match fuel with
  | O => mkReload d out OutOfFuel
  | S fuel' =>
      match fgets 255 stream with
      | None => mkReload d out Returned
      | Some (buffer, rest) =>
          match process_line buffer d with
          | Fault => mkReload d out Faulted
          | Done (d', msgs) => read_loop fuel' rest d' (out ++ msgs)
          end
      end
  end.

(** Lines 196-199. *)
Definition use_defaults (d : serverData) : serverData :=
  set_samples_moving_average_filter DEFAULT_SAMPLES_MOVING_AVERAGE_FILTER
    (set_sensor_period DEFAULT_SENSOR_PERIOD
       (set_max_clients DEFAULT_MAX_CLIENTS
          (set_backlog DEFAULT_BACKLOG d))).

(** [HttpServer::update_configuration].  [file] is what [fopen] finds at
    [config_file]: [None] when it cannot be opened, the contents
    otherwise. *)
Definition update_configuration (config_file : string) (file : option string)
           (d : serverData) : reload :=
  match file with
  | None => mkReload (use_defaults d) [WARNING_no_file config_file] Returned
  | Some stream => read_loop (S (String.length stream)) stream d []
  end.

(** The four keys of the configuration file, to state properties of all
    of them at once. *)
Inductive cfg_key : Type :=
| K_backlog | K_max_clients | K_sensor_period | K_samples_moving_average_filter.

Definition key_name (k : cfg_key) : string :=
  match k with
  | K_backlog => "backlog"
  | K_max_clients => "max_clients"
  | K_sensor_period => "sensor_period"
  | K_samples_moving_average_filter => "samples_moving_average_filter"
  end.

Definition key_default (k : cfg_key) : Z :=
  match k with
  | K_backlog => DEFAULT_BACKLOG
  | K_max_clients => DEFAULT_MAX_CLIENTS
  | K_sensor_period => DEFAULT_SENSOR_PERIOD
  | K_samples_moving_average_filter => DEFAULT_SAMPLES_MOVING_AVERAGE_FILTER
  end.

Definition get_field (k : cfg_key) (d : serverData) : Z :=
  match k with
  | K_backlog => backlog d
  | K_max_clients => max_clients d
  | K_sensor_period => sensor_period d
  | K_samples_moving_average_filter => samples_moving_average_filter d
  end.

Definition set_field (k : cfg_key) (v : Z) (d : serverData) : serverData :=
  match k with
  | K_backlog => set_backlog v d
  | K_max_clients => set_max_clients v d
  | K_sensor_period => set_sensor_period v d
  | K_samples_moving_average_filter => set_samples_moving_average_filter v d
  end.

(** [c] does not occur in [s]. *)
Fixpoint lacks (c : ascii) (s : string) : bool :=
  match s with
  | EmptyString => true
  | String c' rest => negb (Ascii.eqb c' c) && lacks c rest
  end.


(** The value a line resolves to: [changed_value] in the source. *)
Definition resolved (k : cfg_key) (value : string) : Z :=
  if negb (atoi value =? 0) then atoi value else key_default k.

(** The states of the shared record that the server can be in: the
    constructor's zeroes, then any number of reloads (with or without a
    file, line by line) and of updates of the client counter by the
    request handler. *)
Inductive reachable : serverData -> Prop :=
| reach_init : reachable initial_data
| reach_no_file d : reachable d -> reachable (use_defaults d)
| reach_line d buffer d' msgs :
    reachable d -> process_line buffer d = Done (d', msgs) -> reachable d'
| reach_count d c : reachable d -> reachable (set_client_count c d).

(** What one key/value pair can do to the record: the client counter
    stays, and a field either stays or receives a value of at least 1. *)
Definition updated (d d' : serverData) : Prop :=
  client_count d' = client_count d /\
  forall k, get_field k d' = get_field k d \/ 1 <= get_field k d'.

End Config.

(** ** System V IPC: the semaphore sets and message queues of the kernel *)

(** The kernel side of [ftok], [semget], [semctl], [semop], [msgget] and
    [msgctl], as their manual pages describe it.  Of a semaphore set only
    semaphore number 0 is kept: the sources never name another.  A call
    returns its C result ([-1] on error) and the kernel after it. *)
Module SysV.
Import CLib.

Definition IPC_CREAT : Z := 512.      (* 01000 *)
Definition IPC_EXCL : Z := 1024.      (* 02000 *)
Definition IPC_NOWAIT : Z := 2048.    (* 04000 *)
Definition MODE_0666 : Z := 438.
Definition SEMVMX : Z := 32767.

Record sem_object : Type := mkSem { sem_key : Z; semval : Z }.
Record msq_object : Type := mkMsq { msq_key : Z; msq_messages : list (Z * string) }.

Record kernel : Type := mkKernel {
  files : gmap string (Z * Z);      (* st_dev and st_ino of the existing paths *)
  sem_keys : gmap Z Z;              (* key -> semid *)
  sem_sets : gmap Z sem_object;     (* semid -> set *)
  msq_keys : gmap Z Z;              (* key -> msqid *)
  msq_queues : gmap Z msq_object;   (* msqid -> queue *)
  next_id : nat                     (* the next identifier to hand out *)
}.

Definition sys (A : Type) : Type := kernel -> A * kernel.

Definition has_flag (flags bit : Z) : bool := negb (Z.land flags bit =? 0).

(** [ftok(path, id)]: [-1] when [path] cannot be stat'ed, otherwise the
    key glibc builds from the inode, the device and the low byte of
    [id]. *)
Definition ftok (path : string) (id : Z) (k : kernel) : Z :=
  match files k !! path with
  | None => -1
  | Some (dev, ino) =>
      to_int (Z.lor (Z.land ino 65535)
                (Z.lor (Z.shiftl (Z.land dev 255) 16)
                       (Z.shiftl (Z.land id 255) 24)))
  end.

Definition semget (key nsems semflg : Z) : sys Z := fun k =>
  match sem_keys k !! key with
  | Some id =>
      if has_flag semflg IPC_CREAT && has_flag semflg IPC_EXCL
      then (-1, k)                                            (* EEXIST *)
      else (id, k)
  | None =>
      if has_flag semflg IPC_CREAT then
        if 1 <=? nsems then
          let id := Z.of_nat (next_id k) in
          (id, mkKernel (files k)
                        (<[key := id]> (sem_keys k))
                        (<[id := mkSem key 0]> (sem_sets k))
                        (msq_keys k) (msq_queues k) (S (next_id k)))
        else (-1, k)                                          (* EINVAL *)
      else (-1, k)                                            (* ENOENT *)
  end.

(** The kernel with [semval] of the set [semid] replaced. *)
Definition store_semval (semid : Z) (o : sem_object) (v : Z) (k : kernel) : kernel :=
  mkKernel (files k) (sem_keys k)
           (<[semid := mkSem (sem_key o) v]> (sem_sets k))
           (msq_keys k) (msq_queues k) (next_id k).

Definition semctl_SETVAL (semid value : Z) : sys Z := fun k =>
  match sem_sets k !! semid with
  | None => (-1, k)                                           (* EINVAL *)
  | Some o =>
      if (0 <=? value) && (value <=? SEMVMX)
      then (0, store_semval semid o value k)
      else (-1, k)                                            (* ERANGE *)
  end.

Definition semctl_GETVAL (semid : Z) : sys Z := fun k =>
  match sem_sets k !! semid with
  | None => (-1, k)
  | Some o => (semval o, k)
  end.

Definition semctl_IPC_RMID (semid : Z) : sys Z := fun k =>
  match sem_sets k !! semid with
  | None => (-1, k)
  | Some o =>
      (0, mkKernel (files k) (delete (sem_key o) (sem_keys k))
                   (delete semid (sem_sets k))
                   (msq_keys k) (msq_queues k) (next_id k))
  end.

(** [struct sembuf] of [<sys/sem.h>]: [sem_op] and [sem_flg] are
    [short]. *)
Record sembuf : Type := mkSembuf { sem_num : Z; sem_op : Z; sem_flg : Z }.

(** A call of [semop] either returns or leaves the caller suspended. *)
Inductive semop_result : Type :=
| Returns (ret : Z) (k' : kernel)
| Blocks.

Definition semop1 (semid : Z) (sop : sembuf) (k : kernel) : semop_result :=
  match sem_sets k !! semid with
  | None => Returns (-1) k                                    (* EINVAL *)
  | Some o =>
      let store v := store_semval semid o v k in
      if negb (sem_num sop =? 0) then Returns (-1) k          (* EFBIG *)
      else if 0 <? sem_op sop then
        if semval o + sem_op sop <=? SEMVMX
        then Returns 0 (store (semval o + sem_op sop))
        else Returns (-1) k                                   (* ERANGE *)
      else if sem_op sop =? 0 then
        if semval o =? 0 then Returns 0 k
        else if has_flag (sem_flg sop) IPC_NOWAIT then Returns (-1) k
        else Blocks
      else
        if - sem_op sop <=? semval o
        then Returns 0 (store (semval o + sem_op sop))
        else if has_flag (sem_flg sop) IPC_NOWAIT then Returns (-1) k
        else Blocks
  end.

Definition msgget (key msgflg : Z) : sys Z := fun k =>
  match msq_keys k !! key with
  | Some id =>
      if has_flag msgflg IPC_CREAT && has_flag msgflg IPC_EXCL
      then (-1, k)                                            (* EEXIST *)
      else (id, k)
  | None =>
      if has_flag msgflg IPC_CREAT then
        let id := Z.of_nat (next_id k) in
        (id, mkKernel (files k) (sem_keys k) (sem_sets k)
                      (<[key := id]> (msq_keys k))
                      (<[id := mkMsq key []]> (msq_queues k)) (S (next_id k)))
      else (-1, k)                                            (* ENOENT *)
  end.

Definition msgctl_IPC_RMID (msqid : Z) : sys Z := fun k =>
  match msq_queues k !! msqid with
  | None => (-1, k)
  | Some q =>
      (0, mkKernel (files k) (sem_keys k) (sem_sets k)
                   (delete (msq_key q) (msq_keys k))
                   (delete msqid (msq_queues k)) (next_id k))
  end.

End SysV.

(** What [throw(std::runtime_error(what))] throws. *)
Inductive exception : Type := runtime_error (what : string).

(** ** The semaphore handle ([src/sem.cpp]) *)

Module Sem.
Import CLib SysV.

Record t : Type := mk { semid : Z; creator : bool }.

(** [Sem::set]: the result of [semctl] goes through the [char] return
    type. *)
Definition set (this : t) (value : Z) : sys Z := fun k =>
  let '(r, k') := semctl_SETVAL (semid this) (to_int value) k in (to_char r, k').

(** [Sem::get], also through [char]. *)
Definition get (this : t) : sys Z := fun k =>
  let '(r, k') := semctl_GETVAL (semid this) k in (to_char r, k').

(** [Sem::Sem(path, id, create)], run by thread [tid].  The constructor
    never asks who runs it. *)
Definition new (tid : Z) (path : string) (id : Z) (create : bool)
  : sys (exception + t) := fun k =>
  let key := ftok path id k in
  if key =? -1 then (inl (runtime_error "Ftok"), k)
  else if create then
    let '(semid, k1) :=
      semget key 1 (Z.lor IPC_CREAT (Z.lor IPC_EXCL MODE_0666)) k in
    if semid =? -1 then (inl (runtime_error "Create"), k1)
    else
      let this := mk semid create in
      let '(r, k2) := set this 1 k1 in
      if negb (r =? 0) then (inl (runtime_error "Set_value"), k2)
      else (inr this, k2)
  else
    let '(semid, k1) := semget key 0 0 k in
    if semid =? -1 then (inl (runtime_error "Connect"), k1)
    else (inr (mk semid create), k1).

(** [Sem::~Sem()], run by thread [tid]. *)
Definition delete (tid : Z) (this : t) (k : kernel) : kernel :=
  if creator this then snd (semctl_IPC_RMID (semid this) k) else k.

(** [Sem::op]: [sop.sem_op = op] stores the [int] into a [short]. *)
Definition op (this : t) (op : Z) (k : kernel) : semop_result :=
  match semop1 (semid this) (mkSembuf 0 (to_short op) 0) k with
  | Returns r k' => Returns (to_char r) k'
  | Blocks => Blocks
  end.

(** The value of the semaphore behind a handle. *)
Definition value (this : t) (k : kernel) : option Z :=
  semval <$> sem_sets k !! semid this.

(** No semaphore of the kernel is negative. *)
Definition sems_nonneg (k : kernel) : Prop :=
  forall semid o, sem_sets k !! semid = Some o -> 0 <= semval o.

(** [sem_run calls k k']: the calls [Sem::op(delta)] of [calls], each
    through its handle and each of which returned, take the kernel from
    [k] to [k']. *)
Inductive sem_run : list (t * Z) -> kernel -> kernel -> Prop :=
| sem_run_nil k : sem_run [] k k
| sem_run_op this delta calls k r k1 k2 :
    op this delta k = Returns r k1 ->
    sem_run calls k1 k2 ->
    sem_run ((this, delta) :: calls) k k2.

(** A call that adds to the semaphore behind [this]. *)
Definition raises (this : t) (call : t * Z) : Prop :=
  semid (fst call) = semid this /\ 0 < to_short (snd call).

End Sem.

(** ** The message queue handle ([include/msg_queue.h]) *)

Module MsgQueue.
Import CLib SysV.

Record t : Type := mk { msg_id : Z; creator : bool; pid : Z }.

(** [MsgQueue::MsgQueue(path, id, create)], run by thread [tid]
    ([gettid()]). *)
Definition new (tid : Z) (path : string) (id : Z) (create : bool)
  : sys (exception + t) := fun k =>
  let key := ftok path id k in
  if key =? -1 then (inl (runtime_error "ftok"), k)
  else if create then
    let '(msqid, k1) :=
      msgget key (Z.lor IPC_CREAT (Z.lor IPC_EXCL MODE_0666)) k in
    if msqid =? -1 then (inl (runtime_error "msgget"), k1)
    else (inr (mk msqid create tid), k1)
  else
    let '(msqid, k1) := msgget key 0 k in
    if msqid =? -1 then (inl (runtime_error "msgget"), k1)
    else (inr (mk msqid create tid), k1).

(** [MsgQueue::~MsgQueue()], run by thread [tid]. *)
Definition delete (tid : Z) (this : t) (k : kernel) : kernel :=
  if creator this && (pid this =? tid)
  then snd (msgctl_IPC_RMID (msg_id this) k)
  else k.

End MsgQueue.

(** ** The HTTP server ([src/httpserver.cpp]) *)

Module Http.
Import CLib Config.

(** Modelled from the spec: [http_types.h] is not among the sources.  The
    enumerations hold the enumerators that [httpserver.cpp] names; the
    request method, which [on_accept] can read before any request set it,
    also has a value that is neither [GET] nor [POST]. *)
Inductive http_method : Type := GET | POST | NO_METHOD.
Inductive http_mime_type : Type := HTML | FAVICON | JPG | JSON.
Inductive http_code : Type := OK | NOT_FOUND.
Inductive http_conn : Type := CLOSE.

Record HttpRequest : Type := mkReq { method : http_method; req_route : string }.

Record HttpResponse : Type := mkRes {
  route : string;
  mime_type : http_mime_type;
  code : http_code;
  conn : http_conn
}.

(** The string tables of [http_types.h], indexed by the enumerations. *)
Class HttpTypes : Type := {
  http_methods : http_method -> string;
  http_codes : http_code -> string;
  http_mime_types : http_mime_type -> string;
  http_conns : http_conn -> string
}.

Definition SERVER_ROOT : string := "web".
Definition SERVER_NAME : string := "Cotti_server".
Definition RESPONSE_SIZE : Z := 100000.

(** What the handler of one connection sees of the machine: the files
    [fopen] can open with their contents, and the text [ctime] prints
    while the connection lasts. *)
Record env : Type := mkEnv { disk : gmap string string; ctime_now : string }.

(** What the handler does that others can observe. *)
Inductive event : Type :=
| EvCounterLoad (v : Z)          (* reads shm[0].client_count *)
| EvCounterStore (v : Z)         (* writes shm[0].client_count *)
| EvSemOp (delta : Z)            (* Sem::op(delta) *)
| EvSocketWrite (bytes : string) (* socket.write(bytes) *).

Definition strlen (s : string) : Z := Z.of_nat (String.length s).

(** [&s[n]]: the string from index [n] on; past the terminator the bytes
    are not the message's. *)
Definition address_from (n : nat) (s : string) : outcome string :=
  if Nat.leb n (String.length s)
  then Done (substring n (String.length s - n) s)
  else Fault.

(** [HttpServer::request] once [socket.read] returned the message
    [client_msg]; [req] is what [*req] held before. *)
Definition request `{HttpTypes} (client_msg : string) (req : HttpRequest)
  : outcome HttpRequest :=
  buffer ← deref (fst <$> strtok " " client_msg);
  if String.eqb buffer (http_methods GET) then
    from ← address_from (String.length (http_methods GET) + 1) client_msg;
    route ← deref (fst <$> strtok " " from);
    Done (mkReq GET route)
  else
    again ← deref (fst <$> strtok " " buffer);
    if String.eqb again (http_methods POST) then
      from ← address_from (String.length (http_methods POST) + 1) client_msg;
      route ← deref (fst <$> strtok " " from);
      Done (mkReq POST route)
    else Done req.

(** [HttpServer::not_found]. *)
Definition not_found : HttpResponse := mkRes "/not_found.html" HTML NOT_FOUND CLOSE.

Definition dquote : string := String (ascii_of_nat 34) EmptyString.

(** The [sprintf] of lines 76-86. *)
Definition update_json (d : serverData) : string :=
  "{" +:+ dquote +:+ "backlog" +:+ dquote +:+ ": " +:+ print_decimal (backlog d) +:+ ","
  +:+ dquote +:+ "max_clients" +:+ dquote +:+ ": " +:+ print_decimal (max_clients d) +:+ ","
  +:+ dquote +:+ "sensor_period" +:+ dquote +:+ ": "
  +:+ print_decimal (sensor_period d) +:+ ","
  +:+ dquote +:+ "samples_moving_average_filter" +:+ dquote +:+ ": "
  +:+ print_decimal (samples_moving_average_filter d) +:+ ","
  +:+ dquote +:+ "clients" +:+ dquote +:+ ": " +:+ print_decimal (client_count d) +:+ "}".

(** Lines 57-98: the response chosen for a request, the shared record
    after it and the accesses made.  [None] is the [continue] of
    [POST /dc]: no response is sent. *)
Definition dispatch (req : HttpRequest) (d : serverData)
  : option HttpResponse * serverData * list event :=
  let res := not_found in
  match method req with
  | GET =>
      if String.eqb (req_route req) "/" then
        (Some (mkRes "/index.html" HTML OK CLOSE),
         set_client_count (to_int (client_count d + 1)) d,
         [EvCounterLoad (client_count d);
          EvCounterStore (to_int (client_count d + 1))])
      else if String.eqb (req_route req) "/images/favicon.ico" then
        (Some (mkRes (req_route req) FAVICON OK CLOSE), d, [])
      else if String.eqb (req_route req) "/images/404.jpg" then
        (Some (mkRes (req_route req) JPG OK CLOSE), d, [])
      else if String.eqb (req_route req) "/update" then
        (Some (mkRes (update_json d) JSON OK CLOSE), d, [])
      else (Some res, d, [])
  | POST =>
      if String.eqb (req_route req) "/dc" then
        if 0 <? client_count d then
          (None, set_client_count (client_count d - 1) d,
           [EvCounterLoad (client_count d); EvCounterLoad (client_count d);
            EvCounterStore (client_count d - 1)])
        else (None, d, [EvCounterLoad (client_count d)])
      else (Some res, d, [])
  | NO_METHOD => (Some res, d, [])
  end.

(** The header that the [sprintf] of lines 153-166 builds. *)
Definition header `{HttpTypes} (e : env) (res : HttpResponse) (bytes_read : Z) : string :=
  "HTTP/1.1 " +:+ http_codes (code res) +:+ String LF
  ("Server: " +:+ SERVER_NAME +:+ String LF
  ("Date: " +:+ ctime_now e +:+
   "Content-Length: " +:+ print_decimal bytes_read +:+ String LF
  ("Content-Type: " +:+ http_mime_types (mime_type res) +:+ String LF
  ("Content-Language: en" +:+ String LF
  ("Connection: " +:+ http_conns (conn res) +:+ String LF (String LF EmptyString)))))).

(** [HttpServer::response]: the [header_size + bytes_read] bytes handed
    to [socket.write], which are the header and, copied behind it, what
    [buffer] holds.  Nothing compares their number with the
    [RESPONSE_SIZE] bytes of [rta].  When [fopen] fails, [fclose(fd)] gets
    the null pointer. *)
Definition response `{HttpTypes} (e : env) (res : HttpResponse) : outcome string :=
  '(res, buffer) ←
    match route res with
    | String "/" _ =>
        let path := SERVER_ROOT +:+ route res in
        match disk e !! path with
        | None => Fault
        | Some contents =>
            let buffer := substring 0 (Z.to_nat RESPONSE_SIZE) contents in
            if strlen buffer =? 0 then Done (not_found, buffer)
            else Done (res, buffer)
        end
    | _ => Done (res, route res)
    end;
  let bytes_read := strlen buffer in
  let rta := header e res bytes_read in
  Done (rta +:+ buffer).

(** How the handler of a connection ends. *)
Inductive ending : Type :=
| Closed      (* [socket.read] returned 0 or less: [on_accept] returns *)
| Faulted.    (* undefined behaviour in [request] or [response] *)

(** The state of [on_accept] at the top of its loop. *)
Record handler : Type := mkHandler {
  shm : serverData;
  req : HttpRequest;
  trace : list event
}.

(** [HttpServer::on_accept].  [reads] are the bytes that the successive
    [socket.read] calls deliver, which [Socket] terminates with a NUL;
    after the last one, or at an empty one, the read returns 0 or
    less. *)
Fixpoint on_accept `{HttpTypes} (e : env) (reads : list string) (h : handler)
  : handler * ending :=
  match reads with
  | [] => (h, Closed)
  | client_msg :: reads' =>
      match client_msg with
      | EmptyString => (h, Closed)
      | _ =>
          match request (cstr client_msg) (req h) with
          | Fault => (h, Faulted)
          | Done req' =>
              let '(res, d, accesses) := dispatch req' (shm h) in
              match res with
              | None => on_accept e reads' (mkHandler d req' (trace h ++ accesses))
              | Some res =>
                  match response e res with
                  | Fault => (mkHandler d req' (trace h ++ accesses), Faulted)
                  | Done bytes =>
                      on_accept e reads'
                        (mkHandler d req'
                           (trace h ++ accesses ++ [EvSocketWrite bytes]))
                  end
              end
          end
      end
  end.

(** The lock discipline of the specification, on a trace: the client
    counter is read or written only between a [Sem::op(-1)] and the
    [Sem::op(+1)] that follows it, and the semaphore is released at the
    end. *)
Fixpoint bracketed (held : bool) (t : list event) : bool :=
  match t with
  | [] => negb held
  | EvSemOp delta :: t' =>
      if delta =? -1 then negb held && bracketed true t'
      else if delta =? 1 then held && bracketed false t'
      else bracketed held t'
  | EvCounterLoad _ :: t' | EvCounterStore _ :: t' => held && bracketed held t'
  | EvSocketWrite _ :: t' => bracketed held t'
  end.

Definition is_sem_op (ev : event) : bool :=
  match ev with EvSemOp _ => true | _ => false end.

Definition is_socket_write (ev : event) : bool :=
  match ev with EvSocketWrite _ => true | _ => false end.

Definition is_counter_access (ev : event) : bool :=
  match ev with EvCounterLoad _ | EvCounterStore _ => true | _ => false end.

End Http.

(** ** Two handlers incrementing the client counter *)

(** [this->shm[0].client_count++] reads the counter of the shared record,
    adds one and writes the sum back.  Two handlers of [GET /] run these
    steps on the same record, in the order the scheduler picks. *)
Module Race.
Import CLib.

Inductive pc : Type := BeforeLoad | BeforeStore | Finished.

Record worker : Type := mkWorker { at_pc : pc; loaded : Z }.

Definition start : worker := mkWorker BeforeLoad 0.

(** One step of a worker on the shared counter. *)
Definition step (w : worker) (counter : Z) : worker * Z :=
  match at_pc w with
  | BeforeLoad => (mkWorker BeforeStore counter, counter)
  | BeforeStore => (mkWorker Finished (loaded w), to_int (loaded w + 1))
  | Finished => (w, counter)
  end.

(** [true] schedules the first worker, [false] the second. *)
Fixpoint run (schedule : list bool) (a b : worker) (counter : Z) : worker * worker * Z :=
  match schedule with
  | [] => (a, b, counter)
  | true :: rest => let '(a', c') := step a counter in run rest a' b c'
  | false :: rest => let '(b', c') := step b counter in run rest a b' c'
  end.

End Race.

(** ** Vocabulary of the properties and the systems of the examples *)

Module Scenario.
Import CLib SysV Http.

(** A machine where the working directory exists and no IPC object
    does. *)
Definition boot : kernel :=
  mkKernel {[ "." := (2049, 131073) ]} ∅ ∅ ∅ ∅ 0.

(** Modelled from the spec: [http_types.h] is not among the sources; the
    method names are the [GET] and [POST] of the route table, the other
    texts are those of an HTTP/1.1 server. *)
Definition example_types : HttpTypes := {|
  http_methods m := match m with GET => "GET" | POST => "POST" | NO_METHOD => EmptyString end;
  http_codes c := match c with OK => "200 OK" | NOT_FOUND => "404 Not Found" end;
  http_mime_types m :=
    match m with
    | HTML => "text/html"
    | FAVICON => "image/x-icon"
    | JPG => "image/jpeg"
    | JSON => "application/json"
    end;
  http_conns c := match c with CLOSE => "close" end
|}.

Definition example_date : string := "Fri Oct 30 12:00:00 2026" +:+ String LF EmptyString.

(** A server root with the two pages and an empty file, without the
    images. *)
Definition example_env : env :=
  mkEnv {[ "web/index.html" := "<html>index</html>";
           "web/not_found.html" := "<html>not found</html>";
           "web/empty.html" := EmptyString ]} example_date.

Definition example_handler : handler :=
  mkHandler (Config.mkServerData 5 10 1000 5 2) (mkReq NO_METHOD EmptyString) [].

End Scenario.

(** ** The remaining members of [Sem] ([src/sem.cpp]) *)

Module SemOps.
Import CLib SysV.

(** [Sem::exists]. *)
Definition exists_ (path : string) (id : Z) (k : kernel) : bool :=
  let key := ftok path id k in
  if key =? -1 then false
  else if fst (semget key 0 0 k) =? -1 then false
  else true.

(** [Sem::operator++], in both forms: [op(1)], then [get()]. *)
Definition increment (this : Sem.t) (k : kernel) : semop_result :=
  match Sem.op this 1 k with
  | Returns _ k1 => let '(v, k2) := Sem.get this k1 in Returns v k2
  | Blocks => Blocks
  end.

(** [Sem::operator--], in both forms: [op(-1)], then [get()]. *)
Definition decrement (this : Sem.t) (k : kernel) : semop_result :=
  match Sem.op this (-1) k with
  | Returns _ k1 => let '(v, k2) := Sem.get this k1 in Returns v k2
  | Blocks => Blocks
  end.

(** [Sem::operator=]: [set(a)], then [get()]. *)
Definition assign (this : Sem.t) (a : Z) : sys Z := fun k =>
  let '(_, k1) := Sem.set this a k in Sem.get this k1.

(** [Sem::operator+] and [Sem::operator-]: [get()] plus or minus [a], as
    an [int]. *)
Definition plus (this : Sem.t) (a : Z) : sys Z := fun k =>
  let '(v, k1) := Sem.get this k in (to_int (v + a), k1).

Definition minus (this : Sem.t) (a : Z) : sys Z := fun k =>
  let '(v, k1) := Sem.get this k in (to_int (v - a), k1).

End SemOps.

(** ** System V IPC: sending and receiving messages *)

(** [msgsnd] and [msgrcv] as their manual pages describe them, with the
    limits a queue has when it is created and a kernel that supports
    [MSG_COPY]. *)
Module SysVMsg.
Import CLib SysV.

Definition MSG_NOERROR : Z := 4096.     (* 010000 *)
Definition MSG_EXCEPT : Z := 8192.      (* 020000 *)
Definition MSG_COPY : Z := 16384.       (* 040000 *)
Definition MSGMAX : Z := 8192.          (* largest message, in bytes *)
Definition MSGMNB : Z := 16384.         (* capacity of a queue, in bytes *)

Definition E2BIG : Z := 7.
Definition EAGAIN : Z := 11.
Definition EINVAL : Z := 22.
Definition ENOMSG : Z := 42.

(** The kernel with the messages of the queue [msqid] replaced. *)
Definition store_messages (msqid : Z) (q : msq_object) (msgs : list (Z * string))
           (k : kernel) : kernel :=
  mkKernel (files k) (sem_keys k) (sem_sets k) (msq_keys k)
           (<[msqid := mkMsq (msq_key q) msgs]> (msq_queues k)) (next_id k).

Definition msgsz_of (mtext : string) : Z := Z.of_nat (String.length mtext).

Fixpoint queue_bytes (msgs : list (Z * string)) : Z :=
  match msgs with
  | [] => 0
  | (_, mtext) :: rest => msgsz_of mtext + queue_bytes rest
  end.

(** A call either returns (its result, [errno] when the result is [-1],
    the message received if any, the kernel after it) or leaves the
    caller suspended. *)
Inductive msg_result : Type :=
| MsgReturns (ret errno : Z) (received : option (Z * string)) (k' : kernel)
| MsgBlocks.

Definition msgsnd (msqid mtype : Z) (mtext : string) (msgflg : Z) (k : kernel)
  : msg_result :=
  match msq_queues k !! msqid with
  | None => MsgReturns (-1) EINVAL None k
  | Some q =>
      if (mtype <? 1) || (MSGMAX <? msgsz_of mtext) then MsgReturns (-1) EINVAL None k
      else if (queue_bytes (msq_messages q) + msgsz_of mtext <=? MSGMNB)
              && (Z.of_nat (length (msq_messages q)) + 1 <=? MSGMNB)
      then MsgReturns 0 0 None
             (store_messages msqid q (msq_messages q ++ [(mtype, mtext)]) k)
      else if has_flag msgflg IPC_NOWAIT then MsgReturns (-1) EAGAIN None k
      else MsgBlocks
  end.

(** The position of the first message that [wanted] accepts. *)
Fixpoint find_first (wanted : Z -> bool) (i : nat) (msgs : list (Z * string)) : option nat :=
  match msgs with
  | [] => None
  | (mtype, _) :: rest => if wanted mtype then Some i else find_first wanted (S i) rest
  end.

(** The search for a negative [msgtyp]: the first message of the lowest
    type not above [bound]. *)
Fixpoint search_lessequal (bound : Z) (i : nat) (found : option nat)
         (msgs : list (Z * string)) : option nat :=
  match msgs with
  | [] => found
  | (mtype, _) :: rest =>
      if mtype <=? bound then
        if mtype =? 1 then Some i
        else search_lessequal (mtype - 1) (S i) (Some i) rest
      else search_lessequal bound (S i) found rest
  end.

(** The position of the message that [msgrcv] picks. *)
Definition select_message (msgtyp msgflg : Z) (msgs : list (Z * string)) : option nat :=
  if has_flag msgflg MSG_COPY then
    if (0 <=? msgtyp) && (msgtyp <? Z.of_nat (length msgs))
    then Some (Z.to_nat msgtyp) else None
  else if msgtyp =? 0 then find_first (fun _ => true) O msgs
  else if 0 <? msgtyp then
    if has_flag msgflg MSG_EXCEPT
    then find_first (fun mtype => negb (mtype =? msgtyp)) O msgs
    else find_first (fun mtype => mtype =? msgtyp) O msgs
  else search_lessequal (- msgtyp) O None msgs.

Definition msgrcv (msqid msgsz msgtyp msgflg : Z) (k : kernel) : msg_result :=
  match msq_queues k !! msqid with
  | None => MsgReturns (-1) EINVAL None k
  | Some q =>
      if (msgsz <? 0)
         || (has_flag msgflg MSG_COPY
             && (negb (has_flag msgflg IPC_NOWAIT) || has_flag msgflg MSG_EXCEPT))
      then MsgReturns (-1) EINVAL None k
      else
        match select_message msgtyp msgflg (msq_messages q) with
        | None =>
            if has_flag msgflg IPC_NOWAIT then MsgReturns (-1) ENOMSG None k
            else MsgBlocks
        | Some i =>
            match msq_messages q !! i with
            | None => MsgReturns (-1) ENOMSG None k
            | Some (mtype, mtext) =>
                if (msgsz <? msgsz_of mtext) && negb (has_flag msgflg MSG_NOERROR)
                then MsgReturns (-1) E2BIG None k
                else
                  let copied := substring 0 (Z.to_nat msgsz) mtext in
                  MsgReturns (msgsz_of copied) 0 (Some (mtype, copied))
                    (if has_flag msgflg MSG_COPY then k
                     else store_messages msqid q (delete i (msq_messages q)) k)
            end
        end
  end.

End SysVMsg.

(** ** The remaining members of [MsgQueue] ([include/msg_queue.h]) *)

(** A value of [msg_t] is the string of its [sizeof(msg_t)] bytes;
    [sizeof_msg_t] is that size. *)
Module MsgQueueOps.
Import CLib SysV SysVMsg.

(** A member function returns [a] and the kernel after it, or leaves the
    caller suspended. *)
Inductive io (A : Type) : Type :=
| Completes (a : A) (k' : kernel)
| Suspends.
Arguments Completes {A} a k'.
Arguments Suspends {A}.

(** [MsgQueue::exists]. *)
Definition exists_ (path : string) (id : Z) (k : kernel) : bool :=
  let key := ftok path id k in
  if key =? -1 then false
  else if fst (msgget key 0 k) =? -1 then false
  else true.

(** [MsgQueue::write]. *)
Definition write (this : MsgQueue.t) (msg : string) (mtype : Z) (k : kernel) : io Z :=
  let mtype := if mtype <=? 0 then 1 else mtype in
  match msgsnd (MsgQueue.msg_id this) mtype msg 0 k with
  | MsgReturns ret _ _ k' => Completes (if ret =? -1 then -1 else 0) k'
  | MsgBlocks => Suspends
  end.

(** [MsgQueue::read]: what [output.msg] holds ([None] when [msgrcv]
    wrote nothing into it) and what [*status] receives. *)
Definition read (sizeof_msg_t : Z) (this : MsgQueue.t) (mtype : Z) (flags : Z)
           (k : kernel) : io (option string * Z) :=
  match msgrcv (MsgQueue.msg_id this) sizeof_msg_t mtype flags k with
  | MsgReturns ret errno received k' =>
      let state := if ret =? -1 then errno else 0 in
      Completes (snd <$> received, state) k'
  | MsgBlocks => Suspends
  end.

(** [MsgQueue::peek]. *)
Definition peek (sizeof_msg_t : Z) (this : MsgQueue.t) (index : Z) (k : kernel)
  : io (option string * Z) :=
  read sizeof_msg_t this index (Z.lor IPC_NOWAIT MSG_COPY) k.

(** [MsgQueue::operator<<] and [MsgQueue::operator>>]. *)
Definition put (this : MsgQueue.t) (msg : string) (k : kernel) : io Z :=
  write this msg 1 k.

Definition take (sizeof_msg_t : Z) (this : MsgQueue.t) (k : kernel)
  : io (option string * Z) :=
  read sizeof_msg_t this 0 0 k.

(** The messages of the queue behind a handle. *)
Definition contents (this : MsgQueue.t) (k : kernel) : option (list (Z * string)) :=
  msq_messages <$> msq_queues k !! MsgQueue.msg_id this.

(** [write] of each message of [msgs] in turn, all with [mtype];
    [None] when one of them fails or suspends the caller. *)
Fixpoint write_all (this : MsgQueue.t) (msgs : list string) (mtype : Z) (k : kernel)
  : option kernel :=
  match msgs with
  | [] => Some k
  | msg :: rest =>
      match write this msg mtype k with
      | Completes 0 k' => write_all this rest mtype k'
      | _ => None
      end
  end.

(** [n] blocking [read]s with the selector [mtype]: the messages in the
    order received; [None] when one of them fails or suspends the
    caller. *)
Fixpoint read_all (sizeof_msg_t : Z) (this : MsgQueue.t) (n : nat) (mtype : Z)
         (k : kernel) : option (list string * kernel) :=
  match n with
  | O => Some ([], k)
  | S n' =>
      match read sizeof_msg_t this mtype 0 k with
      | Completes (Some msg, 0) k' =>
          match read_all sizeof_msg_t this n' mtype k' with
          | Some (msgs, k'') => Some (msg :: msgs, k'')
          | None => None
          end
      | _ => None
      end
  end.

End MsgQueueOps.

(** ** Signals and timers ([src/signal.cpp]) *)

(** The signal mask of the calling thread is the set of the blocked
    signal numbers; the dispositions of the process map a signal number to
    what [sigaction] installed; the timer is the [ITIMER_REAL] of the
    process.  The C library functions are those of glibc on Linux, where
    [time_t] and [suseconds_t] are 64-bit [long]s. *)
Module Signal.
Import CLib.

Definition SIGKILL : Z := 9.
Definition SIGSTOP : Z := 19.
Definition NSIG : Z := 65.

(** The signal numbers that [sigaddset] and [sigdelset] accept. *)
Definition valid_signal (signo : Z) : bool :=
  (0 <? signo) && (signo <? NSIG) && negb (signo =? 32) && negb (signo =? 33).

(** [sigaddset(&set, signo)]: [None] is the [-1] result. *)
Definition sigaddset (set : gset Z) (signo : Z) : option (gset Z) :=
  if valid_signal signo then Some ({[ signo ]} ∪ set) else None.

Inductive how_t : Type := SIG_BLOCK | SIG_UNBLOCK | SIG_SETMASK.

(** [pthread_sigmask(how, &set, NULL)]: [SIGKILL] and [SIGSTOP] are
    never blocked. *)
Definition pthread_sigmask (how : how_t) (set mask : gset Z) : gset Z :=
  match how with
  | SIG_BLOCK => mask ∪ (set ∖ {[ SIGKILL; SIGSTOP ]})
  | SIG_UNBLOCK => mask ∖ set
  | SIG_SETMASK => set ∖ {[ SIGKILL; SIGSTOP ]}
  end.

(** [Signal::block]. *)
Definition block (signal : Z) (mask : gset Z) : Z * gset Z :=
  match sigaddset ∅ signal with
  | None => (-1, mask)
  | Some set => (0, pthread_sigmask SIG_BLOCK set mask)
  end.

(** [Signal::unblock]. *)
Definition unblock (signal : Z) (mask : gset Z) : Z * gset Z :=
  match sigaddset ∅ signal with
  | None => (-1, mask)
  | Some set => (0, pthread_sigmask SIG_UNBLOCK set mask)
  end.

(** [Signal::unblock_all]. *)
Definition unblock_all (mask : gset Z) : Z * gset Z :=
  (0, pthread_sigmask SIG_SETMASK ∅ mask).

(** What a signal does when it is delivered. *)
Inductive sighandler : Type :=
| SIG_DFL
| SIG_IGN
| Handler (function : nat).

Record sigaction_t : Type := mkSigaction {
  sa_handler : sighandler;
  sa_flags : Z;
  sa_mask : gset Z
}.

(** [sigaction(signal, &sa, NULL)]: [None] is the failure.  The kernel
    takes [SIGKILL] and [SIGSTOP] out of the mask it installs; [sa_flags]
    holds the flags that the caller asked for. *)
Definition sigaction (signal : Z) (sa : sigaction_t) (table : gmap Z sigaction_t)
  : option (gmap Z sigaction_t) :=
  if valid_signal signal && negb (signal =? SIGKILL) && negb (signal =? SIGSTOP)
  then Some (<[signal := mkSigaction (sa_handler sa) (sa_flags sa)
                           (sa_mask sa ∖ {[ SIGKILL; SIGSTOP ]})]> table)
  else None.

(** The loop of [set_handler] over [signals_blocked_in_handler]. *)
Fixpoint add_all (signals : list Z) (mask : gset Z) : option (gset Z) :=
  match signals with
  | [] => Some mask
  | signo :: rest =>
      match sigaddset mask signo with
      | None => None
      | Some mask' => add_all rest mask'
      end
  end.

(** [Signal::set_handler]; [signals_blocked_in_handler] is the vector
    with its [size]. *)
Definition set_handler (signal : Z) (signal_handler : sighandler) (flags : Z)
           (signals_blocked_in_handler : list Z) (table : gmap Z sigaction_t)
  : Z * gmap Z sigaction_t :=
  match add_all signals_blocked_in_handler ∅ with
  | None => (-1, table)
  | Some mask =>
      match sigaction signal (mkSigaction signal_handler (to_int flags) mask) table with
      | None => (-1, table)
      | Some table' => (0, table')
      end
  end.

(** [Signal::ignore] and [Signal::set_default_handler]. *)
Definition ignore (signal : Z) : gmap Z sigaction_t -> Z * gmap Z sigaction_t :=
  set_handler signal SIG_IGN 0 [].

Definition set_default_handler (signal : Z) : gmap Z sigaction_t -> Z * gmap Z sigaction_t :=
  set_handler signal SIG_DFL 0 [].

(** *** The timer *)

Definition to_long : Z -> Z := wrap 64.

Record timeval : Type := mkTimeval { tv_sec : Z; tv_usec : Z }.
Record itimerval : Type := mkItimerval { it_interval : timeval; it_value : timeval }.

Definition timeval_valid (tv : timeval) : bool :=
  (0 <=? tv_sec tv) && (0 <=? tv_usec tv) && (tv_usec tv <? 1000000).

(** The kernel keeps the times of the timer in nanoseconds, in a signed
    64-bit [ktime_t]: a number of seconds that does not fit is cut to
    [KTIME_MAX]. *)
Definition NSEC_PER_SEC : Z := 1000000000.
Definition NSEC_PER_USEC : Z := 1000.
Definition KTIME_MAX : Z := 2 ^ 63 - 1.
Definition KTIME_SEC_MAX : Z := 9223372036.

Definition timeval_to_ktime (tv : timeval) : Z :=
  if KTIME_SEC_MAX <=? tv_sec tv then KTIME_MAX
  else tv_sec tv * NSEC_PER_SEC + tv_usec tv * NSEC_PER_USEC.

Definition ktime_to_timeval (ns : Z) : timeval :=
  mkTimeval (ns / NSEC_PER_SEC) (ns mod NSEC_PER_SEC / NSEC_PER_USEC).

(** [setitimer(ITIMER_REAL, &timer, NULL)] on the timer of the process.
    The timer is held as the kernel arms it: [it_value] is the time from
    this call to the expiry and [it_interval] the period, both cut to
    what [ktime_t] holds; a value of zero disarms the timer and drops the
    period. *)
Definition setitimer (timer current : itimerval) : Z * itimerval :=
  if timeval_valid (it_interval timer) && timeval_valid (it_value timer)
  then
    let expires := timeval_to_ktime (it_value timer) in
    if expires =? 0 then (0, mkItimerval (mkTimeval 0 0) (mkTimeval 0 0))
    else (0, mkItimerval (ktime_to_timeval (timeval_to_ktime (it_interval timer)))
                         (ktime_to_timeval expires))
  else (-1, current).

(** [getitimer(ITIMER_REAL, &timer)], called [elapsed] nanoseconds after
    the [setitimer] that left [current], when the monotonic clock of the
    kernel shows [now] nanoseconds (the timer was set at [now - elapsed]).
    The expiry is the time of setting plus the value, cut to [KTIME_MAX];
    what remains of it is read in microseconds, rounded down.  [None]: the
    timer has expired in between, and what is read from then on depends on
    the delivery of [SIGALRM], which the model does not follow. *)
Definition getitimer (now elapsed : Z) (current : itimerval) : option itimerval :=
  let value := timeval_to_ktime (it_value current) in
  if value =? 0 then Some current
  else
    let expiry := Z.min (now - elapsed + value) KTIME_MAX in
    if now <? expiry
    then Some (mkItimerval (it_interval current) (ktime_to_timeval (expiry - now)))
    else None.

(** [Signal::set_timer_single_shot]; [time_t] is a [long], [/] and [%]
    truncate towards zero. *)
Definition set_timer_single_shot (msec : Z) : itimerval -> Z * itimerval :=
  setitimer
    (mkItimerval (mkTimeval 0 0)
       (mkTimeval (Z.quot msec 1000) (Z.rem (to_long (msec * 1000)) 1000000))).

(** [Signal::set_timer_periodic]. *)
Definition set_timer_periodic (msec : Z) : itimerval -> Z * itimerval :=
  let interval :=
    mkTimeval (Z.quot msec 1000) (Z.rem (to_long (msec * 1000)) 1000000) in
  setitimer (mkItimerval interval interval).

(** [Signal::unset_timer]. *)
Definition unset_timer : itimerval -> Z * itimerval :=
  setitimer (mkItimerval (mkTimeval 0 0) (mkTimeval 0 0)).

(** [Signal::get_timer_time]: [getitimer], then the value read in
    milliseconds. *)
Definition get_timer_time (now elapsed : Z) (current : itimerval) : option Z :=
  timer ← getitimer now elapsed current;
  Some (to_long (to_long (tv_sec (it_value timer) * 1000)
                 + Z.quot (tv_usec (it_value timer)) 1000)).

End Signal.

(** ** The accept cycle of the server ([HttpServer::on_start],
       [HttpServer::sigusr1_handler]) *)

Module Server.
Import Config.

(** [flag_update_conf], which starts at [true], and the shared record. *)
Record state : Type := mkState { flag_update_conf : bool; shm : serverData }.

(** The server once its constructor has run. *)
Definition constructed : state := mkState true initial_data.

(** [HttpServer::sigusr1_handler]. *)
Definition sigusr1_handler (s : state) : state := mkState true (shm s).

(** [HttpServer::on_start]; [file] is what [fopen] finds at
    [config_file] at that moment.  The result holds the state, what was
    printed and how the reload ended. *)
Definition on_start (config_file : string) (file : option string) (s : state)
  : state * list log_msg * Config.ending :=
  if flag_update_conf s then
    let r := update_configuration config_file file (shm s) in
    (mkState false (shm_after r), printed r, how r)
  else (s, [], Returned).

(** [n] deliveries of SIGUSR1. *)
Fixpoint deliveries (n : nat) (s : state) : state :=
  match n with
  | O => s
  | S n' => sigusr1_handler (deliveries n' s)
  end.

End Server.

(** ** Vocabulary of the further properties *)

Module Vocabulary.
Import CLib Config.


(** Of two results [r1] and [r2] reached from the records [d1] and [d2]:
    each configuration field is either the same in both results or
    untouched in both. *)
Definition same_or_kept (d1 d2 r1 r2 : serverData) : Prop :=
  forall k, get_field k r1 = get_field k r2 \/
            (get_field k r1 = get_field k d1 /\ get_field k r2 = get_field k d2).

(** The kernel a member function leaves when it completes. *)
Definition kernel_after {A : Type} (r : MsgQueueOps.io A) (otherwise : SysV.kernel)
  : SysV.kernel :=
  match r with
  | MsgQueueOps.Completes _ k' => k'
  | MsgQueueOps.Suspends => otherwise
  end.

(** The handle of a queue that thread 100 created on [Scenario.boot], and
    the kernel once ["first"] was written to it with type 2 and
    ["second"] with type -7. *)
Definition example_queue : MsgQueue.t := MsgQueue.mk 0 true 100.

Definition empty_queue_kernel : SysV.kernel :=
  snd (MsgQueue.new 100 "." 123 true Scenario.boot).

Definition queue_kernel : SysV.kernel :=
  let k1 := kernel_after (MsgQueueOps.write example_queue "first" 2 empty_queue_kernel)
                         empty_queue_kernel in
  kernel_after (MsgQueueOps.write example_queue "second" (-7) k1) k1.

End Vocabulary.

(** ** Proof automation *)

Module Tactics.
Ltac split_branch :=
  match goal with
  | |- context [String.eqb ?a ?b] => destruct (String.eqb a b)
  | |- context [Z.eqb ?a ?b] => destruct (Z.eqb_spec a b)
  | |- context [Z.leb ?a ?b] => destruct (Z.leb_spec a b)
  end.

End Tactics.

(* ===================================================================== *)
(** * Part II: properties                                                  *)
(* ===================================================================== *)

(** ** The configuration reload *)

Module ConfigFacts.
Import CLib Config Tactics.

(** The four branches of [apply_pair] have one shape. *)
Lemma apply_pair_recognized k v d :
  apply_pair (Some (key_name k)) (Some v) d =
  if resolved k v =? get_field k d then Done (d, [])
  else if 1 <=? resolved k v
       then Done (set_field k (resolved k v) d, [report (key_name k) (resolved k v)])
       else Done (d, [report (key_name k) (resolved k v)]).
Proof. destruct k; reflexivity. Qed.

Lemma key_default_positive k : 1 <= key_default k.
Proof. destruct k; cbv; discriminate. Qed.

Lemma resolved_nonzero k v : resolved k v <> 0.
Proof.
  unfold resolved. destruct (Z.eqb_spec (atoi v) 0) as [_ | Hne]; simpl.
  - pose proof (key_default_positive k). lia.
  - exact Hne.
Qed.

Lemma set_field_same k d : set_field k (get_field k d) d = d.
Proof. destruct k, d; reflexivity. Qed.

Lemma get_set_field k v d : get_field k (set_field k v d) = v.
Proof. destruct k; reflexivity. Qed.

Lemma client_count_set_field k v d : client_count (set_field k v d) = client_count d.
Proof. destruct k; reflexivity. Qed.

Lemma updated_refl d : updated d d.
Proof. split; [reflexivity | intros k; left; reflexivity]. Qed.

Lemma updated_trans d1 d2 d3 : updated d1 d2 -> updated d2 d3 -> updated d1 d3.
Proof.
  intros [Hc1 Hf1] [Hc2 Hf2]. split; [congruence |].
  intros k. destruct (Hf2 k) as [E | ?]; [| right; assumption].
  rewrite E. apply Hf1.
Qed.

Ltac field_cases :=
  match goal with
  | |- updated ?d ?d => apply updated_refl
  | |- updated _ _ =>
      split; [reflexivity | intros [] ; simpl; first [left; reflexivity | right; assumption]]
  end.

Lemma apply_pair_updated key value d d' msgs :
  apply_pair key value d = Done (d', msgs) -> updated d d'.
Proof.
  unfold apply_pair.
  destruct key as [key |]; simpl; [| discriminate].
  repeat (split_branch;
          [destruct value as [value |]; simpl; [| discriminate];
           repeat split_branch; intros [= <- <-]; field_cases |]).
  intros [= <- <-]. field_cases.
Qed.

Lemma process_line_updated buffer d d' msgs :
  process_line buffer d = Done (d', msgs) -> updated d d'.
Proof.
  unfold process_line. destruct (line_tokens buffer) as [[key value] |].
  - apply apply_pair_updated.
  - intros [= <- <-]. apply updated_refl.
Qed.

Lemma read_loop_updated fuel : forall stream d out,
  updated d (shm_after (read_loop fuel stream d out)).
Proof.
  induction fuel as [| fuel IH]; intros stream d out; simpl.
  - apply updated_refl.
  - destruct (fgets 255 stream) as [[buffer rest] |]; simpl; [| apply updated_refl].
    destruct (process_line buffer d) as [[d' msgs] |] eqn:Hline; simpl.
    + eapply updated_trans; [eapply process_line_updated; eassumption | apply IH].
    + apply updated_refl.
Qed.

(** *** Lines of the form [key=value] *)

Lemma append_cons c s t : String c s +:+ t = String c (s +:+ t).
Proof. reflexivity. Qed.








Lemma strtok_nonempty delim c s :
  Ascii.eqb c delim = false ->
  strtok delim (String c s) = Some (span_token delim (String c s)).
Proof. intros E. unfold strtok. cbn [skip_delim]. rewrite E. reflexivity. Qed.






(** *** The loop always has the fuel it needs *)

Lemma fgets_chars_rest room : forall stream buf rest,
  fgets_chars room stream = (buf, rest) ->
  (String.length rest <= String.length stream)%nat /\
  (room <> O -> stream <> EmptyString ->
   (String.length rest < String.length stream)%nat).
Proof.
  induction room as [| room IH]; intros stream buf rest; simpl.
  - intros [= <- <-]. split; [lia | congruence].
  - destruct stream as [| c stream]; simpl.
    + intros [= <- <-]. split; [simpl; lia | congruence].
    + destruct (Ascii.eqb c LF).
      * intros [= <- <-]. split; lia.
      * destruct (fgets_chars room stream) as [buf' rest'] eqn:E.
        intros [= <- <-]. destruct (IH _ _ _ E) as [Hle _]. split; lia.
Qed.

Lemma fgets_consumes size stream buffer rest :
  (1 < size)%nat ->
  fgets size stream = Some (buffer, rest) ->
  (String.length rest < String.length stream)%nat.
Proof.
  intros Hsize. unfold fgets. destruct stream as [| c stream]; [discriminate |].
  intros E. assert (E' : fgets_chars (size - 1) (String c stream) = (buffer, rest))
    by congruence.
  apply fgets_chars_rest in E'. apply E'; [lia | discriminate].
Qed.

Lemma fgets_shrinks stream buffer rest :
  fgets 255 stream = Some (buffer, rest) ->
  (String.length rest < String.length stream)%nat.
Proof. apply fgets_consumes. lia. Qed.

Lemma read_loop_fuel fuel : forall stream d out,
  (String.length stream < fuel)%nat ->
  how (read_loop fuel stream d out) <> OutOfFuel.
Proof.
  induction fuel as [| fuel IH]; intros stream d out Hlen; [lia |]. simpl.
  destruct (fgets 255 stream) as [[buffer rest] |] eqn:Hget; simpl; [| discriminate].
  destruct (process_line buffer d) as [[d' msgs] |]; simpl; [| discriminate].
  apply IH. apply fgets_shrinks in Hget. lia.
Qed.


Lemma update_configuration_ends path file d :
  how (update_configuration path file d) <> OutOfFuel.
Proof.
  unfold update_configuration. destruct file as [stream |]; [| discriminate].
  apply read_loop_fuel. lia.
Qed.

(** *** A reload, line by line *)












(** *** The states the server can be in *)

Lemma reachable_nonneg d : reachable d -> forall k, 0 <= get_field k d.
Proof.
  induction 1 as [| d _ IH | d buffer d' msgs _ IH Hline | d c _ IH]; intros k.
  - destruct k; simpl; lia.
  - destruct k; cbv; discriminate.
  - apply process_line_updated in Hline. destruct Hline as [_ Hf].
    destruct (Hf k) as [E | ?]; [rewrite E; apply IH | lia].
  - specialize (IH k). destruct k; exact IH.
Qed.

Lemma reachable_read_loop fuel : forall stream d out,
  reachable d -> reachable (shm_after (read_loop fuel stream d out)).
Proof.
  induction fuel as [| fuel IH]; intros stream d out Hd; simpl; [exact Hd |].
  destruct (fgets 255 stream) as [[buffer rest] |]; simpl; [| exact Hd].
  destruct (process_line buffer d) as [[d' msgs] |] eqn:Hline; simpl; [| exact Hd].
  apply IH. eapply reach_line; eassumption.
Qed.

(** A reload takes a state of the server to a state of the server. *)
Lemma reachable_update_configuration path file d :
  reachable d -> reachable (shm_after (update_configuration path file d)).
Proof.
  intros Hd. unfold update_configuration. destruct file as [stream |].
  - apply reachable_read_loop, Hd.
  - apply reach_no_file, Hd.
Qed.

(** *** The scenarios of the specification *)

Example reload_backlog_5 :
  update_configuration "config.cfg" (Some "backlog=5") (mkServerData 3 10 1000 5 0)
  = mkReload (mkServerData 5 10 1000 5 0) [INFO_set "backlog" 5] Returned.
Proof. vm_compute. reflexivity. Qed.

Example reload_backlog_0 :
  update_configuration "config.cfg" (Some "backlog=0") (mkServerData 3 10 1000 5 0)
  = mkReload (mkServerData 2 10 1000 5 0) [INFO_set "backlog" 2] Returned.
Proof. vm_compute. reflexivity. Qed.

Example reload_null_value_faults :
  how (update_configuration "config.cfg" (Some "backlog=") (mkServerData 3 10 1000 5 0))
  = Faulted.
Proof. vm_compute. reflexivity. Qed.

(** Outside the states of the server the warning can be missing: a
    negative value equal to the stored one is skipped in silence. *)
Example negative_equal_value_is_silent :
  process_line "backlog=-5" (mkServerData (-5) 10 1000 5 0)
  = Done (mkServerData (-5) 10 1000 5 0, []).
Proof. vm_compute. reflexivity. Qed.

End ConfigFacts.

Module ConfigSpec.
Import CLib Config ConfigFacts.

(** C2, as the specification states it, fails: with [backlog] at 3, the
    file [backlog=abc] sets [backlog] to [DEFAULT_BACKLOG] and prints an
    information line, no warning. *)
Lemma unparsable_value_overwrites :
  let d := mkServerData 3 10 1000 5 0 in
  let r := update_configuration "config.cfg" (Some ("backlog=abc" +:+ String LF EmptyString)) d in
  atoi "abc" = 0 /\
  how r = Returned /\
  backlog (shm_after r) = DEFAULT_BACKLOG /\
  backlog (shm_after r) <> backlog d /\
  existsb is_warning (printed r) = false.
Proof. vm_compute. repeat split; discriminate. Qed.

(** C2, amended: a line with a recognized key whose value [atoi] reads
    as 0 (it does not parse, or it is zero) resolves to the compiled-in
    default of the key.  The field holds that default afterwards; an
    information line is printed when this changed the field, nothing
    when the field already held the default, and never a warning. *)
Theorem unparsable_value_resolves_to_default k v buffer d :
  line_tokens buffer = Some (Some (key_name k), Some v) ->
  atoi v = 0 ->
  process_line buffer d =
    Done (set_field k (key_default k) d,
          if get_field k d =? key_default k then []
          else [INFO_set (key_name k) (key_default k)]).
Proof.
  intros Htok Hatoi. unfold process_line. rewrite Htok, apply_pair_recognized.
  assert (Hres : resolved k v = key_default k)
    by (unfold resolved; rewrite Hatoi; reflexivity).
  rewrite Hres, (Z.eqb_sym (key_default k)).
  destruct (Z.eqb_spec (get_field k d) (key_default k)) as [E | _].
  - rewrite <- E, set_field_same. reflexivity.
  - pose proof (key_default_positive k) as Hpos.
    destruct (Z.leb_spec 1 (key_default k)); [| lia].
    unfold report. destruct (Z.leb_spec (key_default k) 0); [lia | reflexivity].
Qed.

Lemma unparsable_value_resolves_to_default_witness :
  process_line "backlog=abc" (mkServerData 3 10 1000 5 0)
  = Done (mkServerData 2 10 1000 5 0, [INFO_set "backlog" 2]).
Proof.
  apply (unparsable_value_resolves_to_default K_backlog "abc" "backlog=abc"
           (mkServerData 3 10 1000 5 0)); reflexivity.
Defined.




(** The reload of the example, line by line: the negative value leaves
    [max_clients] at 10 and prints the warning between the two information
    lines. *)
Example reload_with_negative_value :
  update_configuration "config.cfg"
    (Some ("backlog=5" +:+ String LF ("max_clients=-4" +:+ String LF
             ("sensor_period=250" +:+ String LF EmptyString))))
    (mkServerData 3 10 1000 5 0)
  = mkReload (mkServerData 5 10 250 5 0)
      [INFO_set "backlog" 5; WARNING_invalid_value "max_clients";
       INFO_set "sensor_period" 250]
      Returned.
Proof. vm_compute. reflexivity. Qed.

(** C4: when the configuration file cannot be opened,
    [update_configuration] returns with the four configuration fields at
    their compiled-in defaults, whatever the record held. *)
Theorem missing_file_gives_defaults path d :
  let r := update_configuration path None d in
  how r = Returned /\
  backlog (shm_after r) = DEFAULT_BACKLOG /\
  max_clients (shm_after r) = DEFAULT_MAX_CLIENTS /\
  sensor_period (shm_after r) = DEFAULT_SENSOR_PERIOD /\
  samples_moving_average_filter (shm_after r) = DEFAULT_SAMPLES_MOVING_AVERAGE_FILTER.
Proof. repeat split. Qed.

(** C10: every run of [update_configuration] ends (it returns, or a
    malformed line stops it) with [client_count] as it found it, whether
    the file opens or not. *)
Theorem reload_keeps_client_count path file d :
  let r := update_configuration path file d in
  how r <> OutOfFuel /\ client_count (shm_after r) = client_count d.
Proof.
  split; [apply update_configuration_ends |].
  unfold update_configuration. destruct file as [stream |]; [| reflexivity].
  apply read_loop_updated.
Qed.

End ConfigSpec.

(** ** The semaphore and message queue handles *)

Module IpcFacts.
Import CLib SysV.

Lemma create_flags :
  has_flag (Z.lor IPC_CREAT (Z.lor IPC_EXCL MODE_0666)) IPC_CREAT = true /\
  has_flag (Z.lor IPC_CREAT (Z.lor IPC_EXCL MODE_0666)) IPC_EXCL = true /\
  has_flag 0 IPC_CREAT = false.
Proof. repeat split. Qed.

(** *** Strict creation and attachment *)

Lemma semget_create_existing key id k :
  sem_keys k !! key = Some id ->
  semget key 1 (Z.lor IPC_CREAT (Z.lor IPC_EXCL MODE_0666)) k = (-1, k).
Proof. intros H. unfold semget. rewrite H. reflexivity. Qed.

Lemma semget_attach_missing key k :
  sem_keys k !! key = None -> semget key 0 0 k = (-1, k).
Proof. intros H. unfold semget. rewrite H. reflexivity. Qed.

Lemma msgget_create_existing key id k :
  msq_keys k !! key = Some id ->
  msgget key (Z.lor IPC_CREAT (Z.lor IPC_EXCL MODE_0666)) k = (-1, k).
Proof. intros H. unfold msgget. rewrite H. reflexivity. Qed.

Lemma msgget_attach_missing key k :
  msq_keys k !! key = None -> msgget key 0 k = (-1, k).
Proof. intros H. unfold msgget. rewrite H. reflexivity. Qed.

Lemma sem_new_existing tid path id k :
  is_Some (sem_keys k !! ftok path id k) ->
  exists what, Sem.new tid path id true k = (inl (runtime_error what), k).
Proof.
  intros [semid H]. unfold Sem.new.
  destruct (ftok path id k =? -1); [eauto |].
  rewrite (semget_create_existing _ _ _ H). simpl. eauto.
Qed.

Lemma sem_new_missing tid path id k :
  sem_keys k !! ftok path id k = None ->
  exists what, Sem.new tid path id false k = (inl (runtime_error what), k).
Proof.
  intros H. unfold Sem.new.
  destruct (ftok path id k =? -1); [eauto |].
  rewrite (semget_attach_missing _ _ H). simpl. eauto.
Qed.

(** A creation that succeeds made the set, set its value to 1 and marks
    the handle as creator. *)
Lemma sem_new_created tid path id k s k' :
  Sem.new tid path id true k = (inr s, k') ->
  sem_keys k !! ftok path id k = None /\
  Sem.creator s = true /\
  sem_keys k' !! ftok path id k = Some (Sem.semid s) /\
  sem_sets k' !! Sem.semid s = Some (mkSem (ftok path id k) 1).
Proof.
  unfold Sem.new. destruct (ftok path id k =? -1); [discriminate |].
  unfold semget. destruct (sem_keys k !! ftok path id k) as [semid |] eqn:Hkey.
  - simpl. discriminate.
  - simpl. destruct (Z.of_nat (next_id k) =? -1); [discriminate |].
    unfold Sem.set, semctl_SETVAL. simpl. rewrite lookup_insert_eq. simpl.
    intros [= <- <-]. simpl. rewrite !lookup_insert_eq. auto.
Qed.

(** Creation does succeed when the path exists and the key is free. *)
Lemma sem_new_fresh tid path id k :
  ftok path id k <> -1 ->
  sem_keys k !! ftok path id k = None ->
  exists k', Sem.new tid path id true k = (inr (Sem.mk (Z.of_nat (next_id k)) true), k').
Proof.
  intros Hkey Hfree. unfold Sem.new.
  destruct (Z.eqb_spec (ftok path id k) (-1)); [contradiction |].
  unfold semget. rewrite Hfree. simpl.
  destruct (Z.eqb_spec (Z.of_nat (next_id k)) (-1)); [lia |].
  unfold Sem.set, semctl_SETVAL. simpl. rewrite lookup_insert_eq. simpl. eauto.
Qed.

Lemma msgqueue_new_existing tid path id k :
  is_Some (msq_keys k !! ftok path id k) ->
  exists what, MsgQueue.new tid path id true k = (inl (runtime_error what), k).
Proof.
  intros [msqid H]. unfold MsgQueue.new.
  destruct (ftok path id k =? -1); [eauto |].
  rewrite (msgget_create_existing _ _ _ H). simpl. eauto.
Qed.

Lemma msgqueue_new_missing tid path id k :
  msq_keys k !! ftok path id k = None ->
  exists what, MsgQueue.new tid path id false k = (inl (runtime_error what), k).
Proof.
  intros H. unfold MsgQueue.new.
  destruct (ftok path id k =? -1); [eauto |].
  rewrite (msgget_attach_missing _ _ H). simpl. eauto.
Qed.

Lemma msgqueue_new_fresh tid path id k :
  ftok path id k <> -1 ->
  msq_keys k !! ftok path id k = None ->
  exists k',
    MsgQueue.new tid path id true k
    = (inr (MsgQueue.mk (Z.of_nat (next_id k)) true tid), k') /\
    msq_queues k' !! Z.of_nat (next_id k) = Some (mkMsq (ftok path id k) []).
Proof.
  intros Hkey Hfree. unfold MsgQueue.new.
  destruct (Z.eqb_spec (ftok path id k) (-1)); [contradiction |].
  unfold msgget. rewrite Hfree. simpl.
  destruct (Z.eqb_spec (Z.of_nat (next_id k)) (-1)); [lia |].
  eexists. split; [reflexivity |]. simpl. apply lookup_insert_eq.
Qed.

(** *** Teardown *)

Lemma sem_delete_attached tid s k :
  Sem.creator s = false -> Sem.delete tid s k = k.
Proof. intros H. unfold Sem.delete. rewrite H. reflexivity. Qed.

(** The destructor of [Sem] removes the set whenever the handle is the
    creator's, whoever runs it. *)
Lemma sem_delete_creator tid s k :
  Sem.creator s = true -> sem_sets (Sem.delete tid s k) !! Sem.semid s = None.
Proof.
  intros H. unfold Sem.delete, semctl_IPC_RMID. rewrite H.
  destruct (sem_sets k !! Sem.semid s) eqn:E; simpl; [apply lookup_delete_eq | exact E].
Qed.

Lemma msgqueue_delete_attached tid q k :
  MsgQueue.creator q = false -> MsgQueue.delete tid q k = k.
Proof. intros H. unfold MsgQueue.delete. rewrite H. reflexivity. Qed.

Lemma msgqueue_delete_elsewhere tid q k :
  MsgQueue.pid q <> tid -> MsgQueue.delete tid q k = k.
Proof.
  intros H. unfold MsgQueue.delete.
  destruct (Z.eqb_spec (MsgQueue.pid q) tid); [contradiction |].
  rewrite andb_false_r. reflexivity.
Qed.

Lemma msgqueue_delete_creator q k :
  MsgQueue.creator q = true ->
  msq_queues (MsgQueue.delete (MsgQueue.pid q) q k) !! MsgQueue.msg_id q = None.
Proof.
  intros H. unfold MsgQueue.delete, msgctl_IPC_RMID. rewrite H, Z.eqb_refl. simpl.
  destruct (msq_queues k !! MsgQueue.msg_id q) eqn:E; simpl;
    [apply lookup_delete_eq | exact E].
Qed.

(** The queue goes only if the handle is the creator's and the thread
    that destroys it is the one that created it. *)
Lemma msgqueue_removed_only_by_creator tid q k :
  MsgQueue.delete tid q k <> k ->
  MsgQueue.creator q = true /\ MsgQueue.pid q = tid.
Proof.
  unfold MsgQueue.delete. destruct (MsgQueue.creator q); simpl.
  - destruct (Z.eqb_spec (MsgQueue.pid q) tid); [auto | congruence].
  - congruence.
Qed.

End IpcFacts.

(** ** The operations of the semaphore *)

Module SemFacts.
Import CLib SysV Scenario.
Import Sem (value, sems_nonneg, sem_run, sem_run_nil, sem_run_op, raises).

Lemma to_short_in_range n : -32768 <= n <= 32767 -> to_short n = n.
Proof.
  intros H. unfold to_short, wrap.
  change (2 ^ (16 - 1)) with 32768. change (2 ^ 16) with 65536.
  rewrite Z.mod_small; lia.
Qed.

(** The value that reaches the kernel is always a [short]. *)
Lemma to_short_range n : -32768 <= to_short n <= 32767.
Proof.
  unfold to_short, wrap.
  change (2 ^ (16 - 1)) with 32768. change (2 ^ 16) with 65536.
  pose proof (Z.mod_pos_bound (n + 32768) 65536). lia.
Qed.

Lemma value_store s s' o v k :
  value s (store_semval (Sem.semid s') o v k)
  = if decide (Sem.semid s' = Sem.semid s) then Some v else value s k.
Proof.
  unfold value, store_semval. simpl. rewrite lookup_insert.
  destruct (decide (Sem.semid s' = Sem.semid s)); reflexivity.
Qed.

Lemma op_positive s n k o :
  sem_sets k !! Sem.semid s = Some o ->
  0 < n <= 32767 -> semval o + n <= SEMVMX ->
  Sem.op s n k = Returns 0 (store_semval (Sem.semid s) o (semval o + n) k).
Proof.
  intros Hs Hn Hmax. unfold Sem.op, semop1. rewrite Hs. simpl.
  rewrite to_short_in_range by lia.
  destruct (Z.ltb_spec 0 n); [| lia].
  destruct (Z.leb_spec (semval o + n) SEMVMX); [reflexivity | lia].
Qed.

Lemma op_zero s k o :
  sem_sets k !! Sem.semid s = Some o ->
  Sem.op s 0 k = if semval o =? 0 then Returns 0 k else Blocks.
Proof.
  intros Hs. unfold Sem.op, semop1. rewrite Hs. simpl.
  destruct (semval o =? 0); reflexivity.
Qed.

(** [op(0)] returns 0 only at a semaphore whose value is 0, and leaves
    the kernel as it is. *)
Lemma op_zero_returns s k k' :
  Sem.op s 0 k = Returns 0 k' -> value s k = Some 0 /\ k' = k.
Proof.
  unfold value. destruct (sem_sets k !! Sem.semid s) as [o |] eqn:Hs.
  - rewrite (op_zero _ _ _ Hs). destruct (Z.eqb_spec (semval o) 0) as [E |]; [| discriminate].
    intros [= <-]. simpl. rewrite E. auto.
  - unfold Sem.op, semop1. rewrite Hs. discriminate.
Qed.

Lemma op_negative s n k o :
  sem_sets k !! Sem.semid s = Some o ->
  0 < n <= 32768 ->
  Sem.op s (- n) k =
    if n <=? semval o
    then Returns 0 (store_semval (Sem.semid s) o (semval o - n) k)
    else Blocks.
Proof.
  intros Hs Hn. unfold Sem.op, semop1. rewrite Hs. simpl.
  rewrite to_short_in_range by lia.
  destruct (Z.ltb_spec 0 (- n)); [lia |].
  destruct (Z.eqb_spec (- n) 0); [lia |].
  rewrite Z.opp_involutive.
  destruct (n <=? semval o); [| reflexivity].
  replace (semval o + - n) with (semval o - n) by lia. reflexivity.
Qed.

(** What a call that returns did: nothing, or it moved the value of its
    semaphore by the [short] it passed, which was positive or no larger
    than the value. *)
Lemma op_returns s delta k r k' :
  Sem.op s delta k = Returns r k' ->
  k' = k \/
  exists o, sem_sets k !! Sem.semid s = Some o /\
            k' = store_semval (Sem.semid s) o (semval o + to_short delta) k /\
            (0 < to_short delta \/ - to_short delta <= semval o).
Proof.
  unfold Sem.op, semop1.
  destruct (sem_sets k !! Sem.semid s) as [o |]; [| intros [= _ <-]; auto].
  simpl. set (sem_op := to_short delta).
  destruct (Z.ltb_spec 0 sem_op).
  { destruct (Z.leb_spec (semval o + sem_op) SEMVMX); intros [= _ <-]; eauto 6. }
  destruct (Z.eqb_spec sem_op 0).
  { destruct (semval o =? 0); [intros [= _ <-]; auto | discriminate]. }
  destruct (Z.leb_spec (- sem_op) (semval o)); [| discriminate].
  intros [= _ <-]. eauto 6.
Qed.

(** Whatever the argument, a call that returns leaves no semaphore
    negative. *)
Lemma op_keeps_nonneg s delta k r k' :
  sems_nonneg k -> Sem.op s delta k = Returns r k' -> sems_nonneg k'.
Proof.
  intros Hk Hop. apply op_returns in Hop.
  destruct Hop as [-> | (o & Hs & -> & Hsign)]; [exact Hk |].
  pose proof (Hk _ _ Hs) as Ho.
  intros semid o'. unfold store_semval. simpl.
  rewrite lookup_insert. destruct (decide (Sem.semid s = semid)).
  - intros [= <-]. simpl. lia.
  - apply Hk.
Qed.

(** For every sequence of calls the value never becomes negative. *)
Lemma sem_run_nonneg calls k k' :
  sem_run calls k k' -> sems_nonneg k -> sems_nonneg k'.
Proof.
  induction 1 as [| s delta calls k r k1 k2 Hop _ IH]; intros Hk; [exact Hk |].
  apply IH. eapply op_keeps_nonneg; eassumption.
Qed.

(** The constructor keeps the invariant: a new set starts at 0 and is
    set to 1. *)
Lemma sem_new_keeps_nonneg tid path id create k r k' :
  sems_nonneg k -> Sem.new tid path id create k = (r, k') -> sems_nonneg k'.
Proof.
  intros Hk. unfold Sem.new.
  destruct (ftok path id k =? -1); [intros [= _ <-]; exact Hk |].
  destruct create.
  - unfold semget. destruct (sem_keys k !! ftok path id k).
    + simpl. intros [= _ <-]. exact Hk.
    + simpl. destruct (Z.of_nat (next_id k) =? -1); [intros [= _ <-] |].
      * intros semid o. simpl. rewrite lookup_insert.
        destruct (decide (Z.of_nat (next_id k) = semid)); [intros [= <-]; simpl; lia | apply Hk].
      * unfold Sem.set, semctl_SETVAL. simpl. rewrite lookup_insert_eq. simpl.
        intros [= _ <-]. intros semid o. simpl. rewrite insert_insert_eq, lookup_insert.
        destruct (decide (Z.of_nat (next_id k) = semid)); [| apply Hk].
        intros [= <-]. simpl. change (to_int 1) with 1. lia.
  - unfold semget. destruct (sem_keys k !! ftok path id k) as [semid |]; simpl.
    + destruct (semid =? -1); intros [= _ <-]; exact Hk.
    + intros [= _ <-]. exact Hk.
Qed.

Lemma boot_nonneg : sems_nonneg boot.
Proof. intros semid o. unfold boot. simpl. rewrite lookup_empty. discriminate. Qed.

(** One call moves the value behind [s] up only if it is a call on that
    semaphore with a positive [sem_op]. *)
Lemma op_raises s s' delta k r k' v :
  Sem.op s' delta k = Returns r k' ->
  value s k = Some v ->
  exists v', value s k' = Some v' /\ (v' <= v \/ raises s (s', delta)).
Proof.
  intros Hop Hv. apply op_returns in Hop.
  destruct Hop as [-> | (o & Hs & -> & Hsign)]; [exists v; split; [exact Hv | lia] |].
  rewrite value_store. destruct (decide (Sem.semid s' = Sem.semid s)) as [E |].
  - eexists. split; [reflexivity |].
    unfold value in Hv. rewrite <- E, Hs in Hv. injection Hv as <-.
    destruct (Z.ltb_spec 0 (to_short delta)); [right; split; [exact E | assumption] | left; lia].
  - exists v. split; [exact Hv | lia].
Qed.

(** If the value behind [s] is larger after a run than before, the run
    holds a positive call on that semaphore. *)
Lemma sem_run_raised s calls k k' :
  sem_run calls k k' ->
  forall v v', value s k = Some v -> value s k' = Some v' -> v < v' ->
  Exists (raises s) calls.
Proof.
  induction 1 as [| s' delta calls k r k1 k2 Hop _ IH]; intros v v' Hv Hv' Hlt.
  - rewrite Hv in Hv'. injection Hv' as <-. lia.
  - destruct (op_raises s _ _ _ _ _ _ Hop Hv) as (v1 & Hv1 & [Hle | Hraise]).
    + apply Exists_cons_tl. apply (IH v1 v'); [assumption | assumption | lia].
    + apply Exists_cons_hd. exact Hraise.
Qed.

(** A decrement within the range of [short] that finds too little is
    suspended; it goes through only in a state that calls with a positive
    argument have raised enough, and what it leaves is not negative. *)
Lemma op_negative_waits s n calls k o k' o' :
  0 < n <= 32768 ->
  sem_sets k !! Sem.semid s = Some o -> semval o < n ->
  sem_run calls k k' ->
  sem_sets k' !! Sem.semid s = Some o' -> n <= semval o' ->
  Sem.op s (- n) k = Blocks /\
  Exists (raises s) calls /\
  Sem.op s (- n) k' = Returns 0 (store_semval (Sem.semid s) o' (semval o' - n) k') /\
  0 <= semval o' - n.
Proof.
  intros Hn Hs Hlow Hrun Hs' Hhigh.
  rewrite (op_negative _ _ _ _ Hs Hn), (op_negative _ _ _ _ Hs' Hn).
  destruct (Z.leb_spec n (semval o)); [lia |].
  destruct (Z.leb_spec n (semval o')); [| lia].
  split; [reflexivity |]. split; [| split; [reflexivity | lia]].
  apply (sem_run_raised s calls k k' Hrun (semval o) (semval o')); [| | lia];
    unfold value; [rewrite Hs | rewrite Hs']; reflexivity.
Qed.

End SemFacts.

(** ** Creation, attachment and teardown of the handles *)

Module IpcSpec.
Import CLib SysV Scenario IpcFacts SemFacts.
Import Sem (value).

(** C5 fails on the semaphore: thread 100 creates it, and the copy of the
    handle that a duplicated process (thread 200) destroys removes the
    set from the system, so that thread 100 can no longer attach.  The
    message queue in the same situation stays. *)
Theorem sem_removed_by_duplicate :
  match Sem.new 100 "." 123 true boot, MsgQueue.new 100 "." 123 true boot with
  | (inr s, k1), (inr q, k2) =>
      value s k1 = Some 1 /\
      sem_sets (Sem.delete 200 s k1) !! Sem.semid s = None /\
      fst (Sem.new 100 "." 123 false (Sem.delete 200 s k1))
        = inl (runtime_error "Connect") /\
      is_Some (msq_queues k2 !! MsgQueue.msg_id q) /\
      MsgQueue.delete 200 q k2 = k2
  | _, _ => False
  end.
Proof. vm_compute. repeat split; eauto. Qed.

(** C6 fails outside the range of [short]: on a semaphore of value 1,
    [op(-40000)] does not suspend the caller; [sem_op] receives 25536,
    the call returns 0 at once and the value is 25537. *)
Theorem op_beyond_short_releases :
  match Sem.new 100 "." 123 true boot with
  | (inr s, k1) =>
      value s k1 = Some 1 /\
      to_short (-40000) = 25536 /\
      exists k2, Sem.op s (-40000) k1 = Returns 0 k2 /\ value s k2 = Some 25537
  | _ => False
  end.
Proof. vm_compute. repeat split. eexists. split; reflexivity. Qed.

(** C7: creating a semaphore or a message queue for a key that has a
    record fails and leaves the system as it was, attaching to a key
    without record fails too, and a semaphore that was created has the
    value 1 (creation does succeed on an existing path whose key is
    free). *)
Theorem strict_create_and_attach tid path id k :
  (is_Some (sem_keys k !! ftok path id k) ->
   exists what, Sem.new tid path id true k = (inl (runtime_error what), k)) /\
  (sem_keys k !! ftok path id k = None ->
   exists what, Sem.new tid path id false k = (inl (runtime_error what), k)) /\
  (forall s k', Sem.new tid path id true k = (inr s, k') -> value s k' = Some 1) /\
  (ftok path id k <> -1 -> sem_keys k !! ftok path id k = None ->
   exists s k', Sem.new tid path id true k = (inr s, k')) /\
  (is_Some (msq_keys k !! ftok path id k) ->
   exists what, MsgQueue.new tid path id true k = (inl (runtime_error what), k)) /\
  (msq_keys k !! ftok path id k = None ->
   exists what, MsgQueue.new tid path id false k = (inl (runtime_error what), k)).
Proof.
  repeat split.
  - apply sem_new_existing.
  - apply sem_new_missing.
  - intros s k' Hnew. apply sem_new_created in Hnew.
    destruct Hnew as (_ & _ & _ & Hset). unfold value. rewrite Hset. reflexivity.
  - intros Hkey Hfree. destruct (sem_new_fresh tid path id k Hkey Hfree) as [k' Hnew].
    eauto.
  - apply msgqueue_new_existing.
  - apply msgqueue_new_missing.
Qed.

Lemma strict_create_and_attach_witness :
  let k1 := snd (Sem.new 100 "." 123 true boot) in
  let k2 := snd (MsgQueue.new 100 "." 123 true boot) in
  (exists what, Sem.new 200 "." 123 true k1 = (inl (runtime_error what), k1)) /\
  (exists what, Sem.new 200 "." 123 false boot = (inl (runtime_error what), boot)) /\
  value (Sem.mk 0 true) k1 = Some 1 /\
  (exists s k', Sem.new 100 "." 123 true boot = (inr s, k')) /\
  (exists what, MsgQueue.new 200 "." 123 true k2 = (inl (runtime_error what), k2)) /\
  (exists what, MsgQueue.new 200 "." 123 false boot = (inl (runtime_error what), boot)).
Proof.
  intros k1 k2.
  destruct (strict_create_and_attach 200 "." 123 k1) as (Hsem_dup & _).
  destruct (strict_create_and_attach 200 "." 123 k2) as (_ & _ & _ & _ & Hmsq_dup & _).
  destruct (strict_create_and_attach 100 "." 123 boot)
    as (_ & Hsem_none & Hsem_one & Hsem_new & _ & Hmsq_none).
  split; [apply Hsem_dup; vm_compute; eauto |].
  split; [apply Hsem_none; vm_compute; reflexivity |].
  split; [apply (Hsem_one (Sem.mk 0 true) k1); vm_compute; reflexivity |].
  split; [apply Hsem_new; vm_compute; [discriminate | reflexivity] |].
  split; [apply Hmsq_dup; vm_compute; eauto |].
  apply Hmsq_none; vm_compute; reflexivity.
Defined.

End IpcSpec.

(** ** The handler of a connection *)

Module HttpFacts.
Import CLib Config Http Scenario.

Lemma append_empty_r (s : string) : s +:+ EmptyString = s.
Proof.
  induction s as [| c s IH]; [reflexivity |].
  change (String c (s +:+ EmptyString) = String c s). f_equal. exact IH.
Qed.

Section Handler.
Context `{HttpTypes}.
Variable e : env.

(** One turn of the loop of [on_accept]. *)
Lemma on_accept_cons client_msg reads h :
  on_accept e (client_msg :: reads) h =
  match client_msg with
  | EmptyString => (h, Closed)
  | _ =>
      match request (cstr client_msg) (req h) with
      | Fault => (h, Faulted)
      | Done req' =>
          let '(res, d, accesses) := dispatch req' (shm h) in
          match res with
          | None => on_accept e reads (mkHandler d req' (trace h ++ accesses))
          | Some res =>
              match response e res with
              | Fault => (mkHandler d req' (trace h ++ accesses), Faulted)
              | Done bytes =>
                  on_accept e reads
                    (mkHandler d req' (trace h ++ accesses ++ [EvSocketWrite bytes]))
              end
          end
      end
  end.
Proof. reflexivity. Qed.

Lemma request_empty r : request EmptyString r = Fault.
Proof. reflexivity. Qed.

(** [dispatch] calls no semaphore and writes nothing to the socket. *)
Lemma dispatch_accesses r d :
  existsb is_sem_op (snd (dispatch r d)) = false /\
  existsb is_socket_write (snd (dispatch r d)) = false.
Proof.
  unfold dispatch. destruct (method r); simpl;
    repeat match goal with
           | |- context [String.eqb ?a ?b] => destruct (String.eqb a b); simpl
           | |- context [Z.ltb ?a ?b] => destruct (Z.ltb a b); simpl
           end; auto.
Qed.

(** [dispatch] changes nothing but the client counter. *)
Lemma dispatch_shm r d :
  exists c, snd (fst (dispatch r d)) = set_client_count c d.
Proof.
  assert (Hsame : d = set_client_count (client_count d) d) by (destruct d; reflexivity).
  unfold dispatch. destruct (method r); simpl;
    repeat match goal with
           | |- context [String.eqb ?a ?b] => destruct (String.eqb a b); simpl
           | |- context [Z.ltb ?a ?b] => destruct (Z.ltb a b); simpl
           end; eauto.
Qed.

(** [on_accept] appends to the trace, and what it appends holds no
    semaphore operation. *)
Lemma on_accept_trace reads : forall h,
  exists suffix,
    trace (fst (on_accept e reads h)) = trace h ++ suffix /\
    existsb is_sem_op suffix = false.
Proof.
  induction reads as [| client_msg reads IH]; intros h.
  - exists []. simpl. rewrite app_nil_r. auto.
  - rewrite on_accept_cons.
    destruct client_msg as [| c msg];
      [exists []; simpl; rewrite app_nil_r; auto |].
    destruct (request (cstr (String c msg)) (req h)) as [req' |];
      [| exists []; simpl; rewrite app_nil_r; auto].
    pose proof (dispatch_accesses req' (shm h)) as [Hsem _].
    destruct (dispatch req' (shm h)) as [[res d] accesses]. simpl in Hsem.
    destruct res as [res |].
    + destruct (response e res) as [bytes |].
      * destruct (IH (mkHandler d req' (trace h ++ accesses ++ [EvSocketWrite bytes])))
          as (suffix & -> & Hsuffix).
        exists (accesses ++ [EvSocketWrite bytes] ++ suffix). simpl.
        rewrite <- !app_assoc. split; [reflexivity |].
        rewrite existsb_app, Hsem. simpl. exact Hsuffix.
      * exists accesses. simpl. auto.
    + destruct (IH (mkHandler d req' (trace h ++ accesses))) as (suffix & -> & Hsuffix).
      exists (accesses ++ suffix). simpl. rewrite <- app_assoc. split; [reflexivity |].
      rewrite existsb_app, Hsem. exact Hsuffix.
Qed.

(** The handler keeps the shared record among the states of the
    server. *)
Lemma on_accept_reachable reads : forall h,
  reachable (shm h) -> reachable (shm (fst (on_accept e reads h))).
Proof.
  induction reads as [| client_msg reads IH]; intros h Hh; [exact Hh |].
  rewrite on_accept_cons.
  destruct client_msg as [| c msg]; [exact Hh |].
  destruct (request (cstr (String c msg)) (req h)) as [req' |]; [| exact Hh].
  destruct (dispatch_shm req' (shm h)) as [count Hd].
  destruct (dispatch req' (shm h)) as [[res d] accesses]. simpl in Hd. subst d.
  destruct res as [res |]; [destruct (response e res) |];
    try apply IH; simpl; apply reach_count, Hh.
Qed.

(** When the file cannot be opened, [response] ends in [fclose(NULL)]:
    nothing is written. *)
Lemma response_fopen_fails res rest :
  route res = String "/" rest ->
  disk e !! (SERVER_ROOT +:+ route res) = None ->
  response e res = Fault.
Proof. intros Hroute Hfile. unfold response. rewrite Hroute in *. rewrite Hfile. reflexivity. Qed.

(** When the file is empty the header is that of [not_found()], and no
    body follows: [not_found.html] is not read. *)
Lemma response_empty_file res rest :
  route res = String "/" rest ->
  disk e !! (SERVER_ROOT +:+ route res) = Some EmptyString ->
  response e res = Done (header e not_found 0).
Proof.
  intros Hroute Hfile. unfold response. rewrite Hroute in *. rewrite Hfile.
  simpl. change (strlen EmptyString) with 0.
  rewrite append_empty_r. reflexivity.
Qed.

End Handler.

(** A trace that touches the counter and holds no semaphore operation
    does not follow the lock discipline. *)
Lemma unguarded_not_bracketed t :
  existsb is_sem_op t = false ->
  existsb is_counter_access t = true ->
  bracketed false t = false.
Proof.
  induction t as [| ev t IH]; simpl; [discriminate |].
  destruct ev; simpl; auto; discriminate.
Qed.

(** Two handlers that both run [client_count++], the second reading
    before the first has written: one increment is lost. *)
Lemma lost_update c :
  snd (Race.run [true; false; true; false] Race.start Race.start c) = to_int (c + 1) /\
  snd (Race.run [true; true; false; false] Race.start Race.start c)
    = to_int (to_int (c + 1) + 1).
Proof. split; reflexivity. Qed.

End HttpFacts.

Module HttpSpec.
Import CLib Config Http Scenario HttpFacts.

#[local] Existing Instance example_types.

(** C1, as the specification states it, fails: the handler of [GET /]
    reads and writes the client counter with no semaphore operation
    before or after, so its trace does not follow the lock discipline. *)
Lemma get_root_counter_unguarded :
  let h := fst (on_accept example_env ["GET / HTTP/1.1"] example_handler) in
  client_count (shm h) = 3 /\
  firstn 2 (trace h) = [EvCounterLoad 2; EvCounterStore 3] /\
  existsb is_sem_op (trace h) = false /\
  bracketed false (trace h) = false.
Proof. vm_compute. repeat split. Qed.

(** C1, amended: [on_accept] performs no semaphore operation at all.
    The increment of [GET /] and the decrement of [POST /dc] read and
    write the client counter of the shared record directly; whenever a
    connection touches the counter, its trace is outside the lock
    discipline. *)
Theorem on_accept_never_locks `{HttpTypes} e reads d r :
  let t := trace (fst (on_accept e reads (mkHandler d r []))) in
  existsb is_sem_op t = false /\
  (existsb is_counter_access t = true -> bracketed false t = false).
Proof.
  destruct (on_accept_trace e reads (mkHandler d r [])) as (suffix & Ht & Hsem).
  simpl in Ht. simpl. rewrite Ht. split; [exact Hsem |].
  apply unguarded_not_bracketed, Hsem.
Qed.

Lemma on_accept_never_locks_witness :
  bracketed false
    (trace (fst (on_accept example_env ["GET / HTTP/1.1"; "POST /dc HTTP/1.1"]
                   example_handler))) = false.
Proof.
  apply (on_accept_never_locks example_env ["GET / HTTP/1.1"; "POST /dc HTTP/1.1"]
           (mkServerData 5 10 1000 5 2) (mkReq NO_METHOD EmptyString)).
  vm_compute. reflexivity.
Defined.

(** C8 fails on both partial failures.  [GET /images/favicon.ico] with
    no such file under the server root: [response] passes the null
    stream to [fclose], and the handler stops without a write to the
    socket.  A file that is there and empty: the 404 header is written
    with a content length of 0 and no body; [not_found.html], which
    exists, is not read. *)
Theorem failed_read_is_not_served_not_found :
  disk example_env !! "web/images/favicon.ico" = None /\
  response example_env (mkRes "/images/favicon.ico" FAVICON OK CLOSE) = Fault /\
  on_accept example_env ["GET /images/favicon.ico HTTP/1.1"] example_handler
    = (mkHandler (shm example_handler) (mkReq GET "/images/favicon.ico") [], Faulted) /\
  is_Some (disk example_env !! "web/not_found.html") /\
  response example_env (mkRes "/empty.html" HTML OK CLOSE)
    = Done (header example_env not_found 0).
Proof. vm_compute. repeat split. eauto. Qed.

(** C9: a request that [request] reads as [POST /dc] takes one from the
    client counter when it is greater than 0 and leaves it otherwise;
    nothing is written to the socket for it, and the handler goes on
    with the next read of the same connection. *)
Theorem post_dc_decrements_without_response `{HttpTypes} e client_msg reads h :
  request (cstr client_msg) (req h) = Done (mkReq POST "/dc") ->
  let c := client_count (shm h) in
  let c' := if 0 <? c then c - 1 else c in
  exists accesses,
    existsb is_socket_write accesses = false /\
    on_accept e (client_msg :: reads) h
    = on_accept e reads
        (mkHandler (set_client_count c' (shm h)) (mkReq POST "/dc")
                   (trace h ++ accesses)).
Proof.
  intros Hreq c c'. rewrite on_accept_cons.
  destruct client_msg as [| a msg]; [discriminate |].
  rewrite Hreq. unfold dispatch. simpl. subst c c'.
  destruct (Z.ltb_spec 0 (client_count (shm h))).
  - eexists. split; [| reflexivity]. reflexivity.
  - exists [EvCounterLoad (client_count (shm h))]. split; [reflexivity |].
    destruct (shm h); reflexivity.
Qed.

Lemma post_dc_decrements_without_response_witness :
  exists accesses,
    existsb is_socket_write accesses = false /\
    on_accept example_env ["POST /dc HTTP/1.1"] example_handler
    = (mkHandler (mkServerData 5 10 1000 5 1) (mkReq POST "/dc") accesses, Closed).
Proof.
  destruct (post_dc_decrements_without_response example_env "POST /dc HTTP/1.1" []
              example_handler) as (accesses & Hquiet & Hrun); [reflexivity |].
  exists accesses. split; [exact Hquiet |]. rewrite Hrun. reflexivity.
Defined.

(** The route table on the scenarios of the specification. *)
Example get_unknown_route :
  on_accept example_env ["GET /nope HTTP/1.1"] example_handler
  = (mkHandler (shm example_handler) (mkReq GET "/nope")
       [EvSocketWrite (header example_env not_found 22 +:+ "<html>not found</html>")],
     Closed).
Proof. vm_compute. reflexivity. Qed.

Example get_update :
  on_accept example_env ["GET /update HTTP/1.1"] example_handler
  = (mkHandler (shm example_handler) (mkReq GET "/update")
       [EvSocketWrite
          (header example_env (mkRes EmptyString JSON OK CLOSE) 102
           +:+ update_json (shm example_handler))],
     Closed).
Proof. vm_compute. reflexivity. Qed.

(** With the counter at 0, as in the scenario of the specification. *)
Example post_dc_at_zero :
  on_accept example_env ["POST /dc HTTP/1.1"]
    (mkHandler (mkServerData 5 10 1000 5 0) (mkReq NO_METHOD EmptyString) [])
  = (mkHandler (mkServerData 5 10 1000 5 0) (mkReq POST "/dc") [EvCounterLoad 0], Closed).
Proof. vm_compute. reflexivity. Qed.

End HttpSpec.

(* ===================================================================== *)
(** * Part III: further properties of the sources                          *)
(* ===================================================================== *)

(** ** More on the configuration reload *)

Module ReloadFacts.
Import CLib Config ConfigFacts Vocabulary.

(** The three ways [apply_pair] can go, whatever the record: a null
    pointer, an unknown key, or one of the four keys with a value. *)
Lemma apply_pair_cases key value :
  (forall d, apply_pair key value d = Fault) \/
  (exists name, forall d, apply_pair key value d = Done (d, [WARNING_unknown_key name])) \/
  (exists k v, key = Some (key_name k) /\ value = Some v).
Proof.
  destruct key as [key |]; [| left; reflexivity].
  destruct (String.eqb_spec key "backlog") as [-> |].
  { destruct value as [v |]; [| left; reflexivity]. right; right. exists K_backlog, v. auto. }
  destruct (String.eqb_spec key "max_clients") as [-> |].
  { destruct value as [v |]; [| left; reflexivity]. right; right. exists K_max_clients, v. auto. }
  destruct (String.eqb_spec key "sensor_period") as [-> |].
  { destruct value as [v |]; [| left; reflexivity]. right; right. exists K_sensor_period, v. auto. }
  destruct (String.eqb_spec key "samples_moving_average_filter") as [-> |].
  { destruct value as [v |]; [| left; reflexivity].
    right; right. exists K_samples_moving_average_filter, v. auto. }
  right; left. exists key. intros d. unfold apply_pair. simpl.
  repeat match goal with
         | Hne : ?a <> ?b |- context [String.eqb ?a ?b] =>
             rewrite (proj2 (String.eqb_neq a b) Hne)
         end.
  reflexivity.
Qed.

Lemma get_set_field_other k k' v d : k <> k' -> get_field k' (set_field k v d) = get_field k' d.
Proof. destruct k, k'; intros Hne; try reflexivity; contradiction. Qed.

Lemma key_name_inj k k' : key_name k = key_name k' -> k = k'.
Proof. destruct k, k'; simpl; intros [=]; reflexivity. Qed.

Lemma serverData_ext d d' :
  (forall k, get_field k d = get_field k d') -> client_count d = client_count d' -> d = d'.
Proof.
  intros Hf Hc. destruct d, d'. simpl in Hc.
  pose proof (Hf K_backlog). pose proof (Hf K_max_clients).
  pose proof (Hf K_sensor_period). pose proof (Hf K_samples_moving_average_filter).
  simpl in *. congruence.
Qed.

(** What a recognized pair does to the record, without the messages: the
    field receives the resolved value when that is at least 1. *)
Lemma apply_pair_record k v d :
  exists msgs,
    apply_pair (Some (key_name k)) (Some v) d
    = Done (if 1 <=? resolved k v then set_field k (resolved k v) d else d, msgs).
Proof.
  rewrite apply_pair_recognized.
  destruct (Z.eqb_spec (resolved k v) (get_field k d)) as [E |].
  - exists []. destruct (1 <=? resolved k v); [| reflexivity].
    rewrite E, set_field_same. reflexivity.
  - destruct (1 <=? resolved k v); eauto.
Qed.

Lemma process_line_two buffer d1 d2 :
  (process_line buffer d1 = Fault /\ process_line buffer d2 = Fault) \/
  (exists r1 m1 r2 m2,
      process_line buffer d1 = Done (r1, m1) /\ process_line buffer d2 = Done (r2, m2) /\
      same_or_kept d1 d2 r1 r2).
Proof.
  unfold process_line. destruct (line_tokens buffer) as [[key value] |].
  - destruct (apply_pair_cases key value) as [Hf | [[name Hu] | (k & v & -> & ->)]].
    + left. rewrite !Hf. auto.
    + right. rewrite !Hu. do 4 eexists. repeat split. intros k. right. auto.
    + right. destruct (apply_pair_record k v d1) as [m1 ->].
      destruct (apply_pair_record k v d2) as [m2 ->].
      do 4 eexists. repeat split. intros k'.
      destruct (1 <=? resolved k v); [| right; auto].
      destruct k, k'; simpl; auto.
  - right. do 4 eexists. repeat split. intros k. right. auto.
Qed.

Lemma read_loop_two fuel : forall stream d1 d2 out1 out2,
  how (read_loop fuel stream d1 out1) = how (read_loop fuel stream d2 out2) /\
  same_or_kept d1 d2 (shm_after (read_loop fuel stream d1 out1))
               (shm_after (read_loop fuel stream d2 out2)).
Proof.
  induction fuel as [| fuel IH]; intros stream d1 d2 out1 out2; simpl.
  - split; [reflexivity | intros k; right; auto].
  - destruct (fgets 255 stream) as [[buffer rest] |]; simpl;
      [| split; [reflexivity | intros k; right; auto]].
    destruct (process_line_two buffer d1 d2)
      as [[-> ->] | (r1 & m1 & r2 & m2 & -> & -> & Hline)]; simpl.
    + split; [reflexivity | intros k; right; auto].
    + destruct (IH rest r1 r2 (out1 ++ m1) (out2 ++ m2)) as [Hhow Hrest].
      split; [exact Hhow |]. intros k.
      destruct (Hrest k) as [E | [E1 E2]]; [left; exact E |].
      rewrite E1, E2. apply Hline.
Qed.

End ReloadFacts.

Module ReloadSpec.
Import CLib Config ConfigFacts Vocabulary ReloadFacts.

(** X1: a line with a recognized key whose value [atoi] reads as 1 or
    more stores that value in the field of the key and prints the
    information line; when the field already holds the value, the line
    does and prints nothing. *)
Theorem valid_value_applied k v buffer d :
  line_tokens buffer = Some (Some (key_name k), Some v) ->
  1 <= atoi v ->
  process_line buffer d =
    Done (set_field k (atoi v) d,
          if atoi v =? get_field k d then [] else [INFO_set (key_name k) (atoi v)]).
Proof.
  intros Htok Hpos. unfold process_line. rewrite Htok, apply_pair_recognized.
  assert (Hres : resolved k v = atoi v).
  { unfold resolved. destruct (Z.eqb_spec (atoi v) 0); [lia | reflexivity]. }
  rewrite Hres. destruct (Z.eqb_spec (atoi v) (get_field k d)) as [E |].
  - rewrite E, set_field_same. reflexivity.
  - destruct (Z.leb_spec 1 (atoi v)); [| lia].
    unfold report. destruct (Z.leb_spec (atoi v) 0); [lia | reflexivity].
Qed.

Lemma valid_value_applied_witness :
  process_line "sensor_period=250" (mkServerData 3 10 1000 5 7)
  = Done (mkServerData 3 10 250 5 7, [INFO_set "sensor_period" 250]).
Proof.
  apply (valid_value_applied K_sensor_period "250" "sensor_period=250"
           (mkServerData 3 10 1000 5 7)).
  - reflexivity.
  - vm_compute. discriminate.
Defined.

(** X2: a line changes a configuration field only when its key token is
    the key of that field and its value resolves to 1 or more; the field
    then holds the resolved value, the information line is what is
    printed, and the other fields and the client counter stay. *)
Theorem field_changes_only_by_its_key k buffer d d' msgs :
  process_line buffer d = Done (d', msgs) ->
  get_field k d' <> get_field k d ->
  exists v,
    line_tokens buffer = Some (Some (key_name k), Some v) /\
    1 <= resolved k v /\
    d' = set_field k (resolved k v) d /\
    msgs = [INFO_set (key_name k) (resolved k v)].
Proof.
  unfold process_line. destruct (line_tokens buffer) as [[key value] |];
    [| intros [= <- <-] Hne; contradiction].
  destruct (apply_pair_cases key value) as [Hf | [[name Hu] | (k0 & v & -> & ->)]].
  - rewrite Hf. discriminate.
  - rewrite Hu. intros [= <- <-] Hne. contradiction.
  - rewrite apply_pair_recognized.
    destruct (Z.eqb_spec (resolved k0 v) (get_field k0 d));
      [intros [= <- <-] Hne; contradiction |].
    destruct (Z.leb_spec 1 (resolved k0 v)); [| intros [= <- <-] Hne; contradiction].
    intros [= <- <-] Hne.
    assert (k0 = k) as ->
      by (destruct k0, k; try reflexivity; exfalso; apply Hne; reflexivity).
    exists v. repeat split; [assumption |].
    unfold report. destruct (Z.leb_spec (resolved k v) 0); [lia | reflexivity].
Qed.

Lemma field_changes_only_by_its_key_witness :
  exists v,
    line_tokens "backlog=8" = Some (Some "backlog", Some v) /\
    1 <= resolved K_backlog v /\
    mkServerData 8 10 1000 5 0 = set_field K_backlog (resolved K_backlog v)
                                   (mkServerData 3 10 1000 5 0) /\
    [INFO_set "backlog" 8] = [INFO_set "backlog" (resolved K_backlog v)].
Proof.
  apply (field_changes_only_by_its_key K_backlog "backlog=8"
           (mkServerData 3 10 1000 5 0) (mkServerData 8 10 1000 5 0)
           [INFO_set "backlog" 8]).
  - reflexivity.
  - simpl. discriminate.
Defined.

(** X3: reloading is idempotent on the shared record.  A second run of
    [update_configuration] on the same file, started from the record the
    first run left, ends the same way and leaves that record as it is. *)
Theorem reload_idempotent path file d :
  let r := update_configuration path file d in
  let r' := update_configuration path file (shm_after r) in
  shm_after r' = shm_after r /\ how r' = how r.
Proof.
  unfold update_configuration. destruct file as [stream |]; [| split; reflexivity].
  set (fuel := S (String.length stream)).
  destruct (read_loop_two fuel stream d (shm_after (read_loop fuel stream d [])) [] [])
    as [Hhow Hfields].
  split; [| symmetry; exact Hhow].
  apply serverData_ext.
  - intros k. destruct (Hfields k) as [E | [_ E]]; [symmetry; exact E | exact E].
  - apply read_loop_updated.
Qed.

(** X4: a reload keeps configuration fields positive.  When the four
    fields are at least 1 before [update_configuration], they are at
    least 1 after it, whatever the file holds; and after a reload without
    file they are at least 1 whatever they were. *)
Theorem reload_keeps_positive path file d :
  (forall k, 1 <= get_field k d) ->
  (forall k, 1 <= get_field k (shm_after (update_configuration path file d))) /\
  (forall k d0, 1 <= get_field k (shm_after (update_configuration path None d0))).
Proof.
  intros Hd. split.
  - intros k. unfold update_configuration. destruct file as [stream |].
    + destruct (read_loop_updated (S (String.length stream)) stream d []) as [_ Hf].
      destruct (Hf k) as [E | ?]; [rewrite E; apply Hd | assumption].
    + destruct k; cbv; discriminate.
  - intros k d0. destruct k; cbv; discriminate.
Qed.

Lemma reload_keeps_positive_witness :
  1 <= samples_moving_average_filter
         (shm_after (update_configuration "config.cfg"
                       (Some "samples_moving_average_filter=-3")
                       (mkServerData 3 10 1000 5 0))).
Proof.
  apply (proj1 (reload_keeps_positive "config.cfg"
                  (Some "samples_moving_average_filter=-3")
                  (mkServerData 3 10 1000 5 0)
                  ltac:(intros []; simpl; lia))
           K_samples_moving_average_filter).
Defined.

End ReloadSpec.

(** ** More on the handler of a connection *)

Module HandlerFacts.
Import CLib Config Http HttpFacts ConfigFacts.

Lemma length_append (a b : string) :
  String.length (a +:+ b) = (String.length a + String.length b)%nat.
Proof.
  induction a as [| c a IH]; [reflexivity |].
  rewrite append_cons. simpl. rewrite IH. reflexivity.
Qed.




Lemma substring_0_all (s : string) : substring 0 (String.length s) s = s.
Proof. induction s as [| c s IH]; simpl; [reflexivity | rewrite IH; reflexivity]. Qed.

Lemma substring_skip (a b : string) n :
  substring (String.length a) n (a +:+ b) = substring 0 n b.
Proof. induction a as [| c a IH]; [reflexivity |]. rewrite append_cons. simpl. exact IH. Qed.

(** [&s[strlen(a) + 1]] in [a c b] is [b]. *)
Lemma address_from_after (a b : string) c :
  address_from (String.length a + 1) (a +:+ String c b) = Done b.
Proof.
  unfold address_from. rewrite length_append. simpl.
  destruct (Nat.leb_spec (String.length a + 1) (String.length a + S (String.length b)));
    [| lia].
  replace (String.length a + 1)%nat with (String.length (a +:+ String c EmptyString))
    by (rewrite length_append; reflexivity).
  replace (a +:+ String c b) with ((a +:+ String c EmptyString) +:+ b).
  - rewrite substring_skip.
    replace (String.length a + S (String.length b)
             - String.length (a +:+ String c EmptyString))%nat
      with (String.length b) by (rewrite length_append; simpl; lia).
    rewrite substring_0_all. reflexivity.
  - clear. induction a as [| c' a IH]; [reflexivity |].
    rewrite !append_cons, IH. reflexivity.
Qed.

(** *** [strtok] with any delimiter *)

Lemma span_token_delim delim s t :
  lacks delim s = true -> span_token delim (s +:+ String delim t) = (s, t).
Proof.
  induction s as [| c s IH]; intros Hs.
  - simpl. rewrite Ascii.eqb_refl. reflexivity.
  - rewrite append_cons. simpl in *. apply andb_prop in Hs as [Hc Hs].
    destruct (Ascii.eqb c delim); [discriminate |]. rewrite (IH Hs). reflexivity.
Qed.

Lemma span_token_whole delim s :
  lacks delim s = true -> span_token delim s = (s, EmptyString).
Proof.
  induction s as [| c s IH]; simpl; [reflexivity |].
  intros [Hc Hs]%andb_prop. destruct (Ascii.eqb c delim); [discriminate |].
  rewrite (IH Hs). reflexivity.
Qed.

Lemma lacks_head delim s :
  s <> EmptyString -> lacks delim s = true ->
  exists c s', s = String c s' /\ Ascii.eqb c delim = false.
Proof.
  destruct s as [| c s]; [congruence |]. simpl. intros _ [Hc _]%andb_prop.
  exists c, s. split; [reflexivity |]. apply negb_true_iff, Hc.
Qed.

Lemma strtok_word delim w t :
  w <> EmptyString -> lacks delim w = true ->
  strtok delim (w +:+ String delim t) = Some (w, t).
Proof.
  intros Hne Hw. destruct (lacks_head _ _ Hne Hw) as (c & w' & -> & Hc).
  rewrite append_cons, (strtok_nonempty _ _ _ Hc), <- append_cons.
  rewrite (span_token_delim _ _ _ Hw). reflexivity.
Qed.

Lemma strtok_whole delim w :
  w <> EmptyString -> lacks delim w = true ->
  strtok delim w = Some (w, EmptyString).
Proof.
  intros Hne Hw. destruct (lacks_head _ _ Hne Hw) as (c & w' & -> & Hc).
  rewrite (strtok_nonempty _ _ _ Hc), (span_token_whole _ _ Hw). reflexivity.
Qed.

Lemma span_token_lacks delim s : lacks delim (fst (span_token delim s)) = true.
Proof.
  induction s as [| c s IH]; simpl; [reflexivity |].
  destruct (Ascii.eqb c delim) eqn:E; [reflexivity |].
  destruct (span_token delim s) as [tok saved]. simpl in *. rewrite E, IH. reflexivity.
Qed.

Lemma skip_delim_head delim s c s' :
  skip_delim delim s = String c s' -> Ascii.eqb c delim = false.
Proof.
  induction s as [| c0 s IH]; simpl; [discriminate |].
  destruct (Ascii.eqb c0 delim) eqn:E; [exact IH |]. intros [= -> _]. exact E.
Qed.

(** A token that [strtok] returned is not empty and free of the
    delimiter, so [strtok] on it returns it again. *)
Lemma strtok_token delim s tok saved :
  strtok delim s = Some (tok, saved) ->
  strtok delim tok = Some (tok, EmptyString).
Proof.
  unfold strtok at 1. destruct (skip_delim delim s) as [| c s'] eqn:Hskip; [discriminate |].
  intros E.
  assert (Hspan : span_token delim (String c s') = (tok, saved)) by congruence.
  clear E. pose proof (skip_delim_head _ _ _ _ Hskip) as Hc.
  pose proof (span_token_lacks delim (String c s')) as Hlacks.
  rewrite Hspan in Hlacks. simpl in Hlacks.
  apply strtok_whole; [| exact Hlacks].
  simpl in Hspan. rewrite Hc in Hspan.
  destruct (span_token delim s') as [tok' saved']. injection Hspan as <- <-. discriminate.
Qed.

(** *** The effect of [dispatch] *)

Lemma to_int_in_range z : -2147483648 <= z <= 2147483647 -> to_int z = z.
Proof.
  intros H. unfold to_int, wrap.
  change (2 ^ (32 - 1)) with 2147483648. change (2 ^ 32) with 4294967296.
  rewrite Z.mod_small; lia.
Qed.

Lemma dispatch_counter r d :
  let d' := snd (fst (dispatch r d)) in
  client_count d' = client_count d \/
  client_count d' = to_int (client_count d + 1) \/
  (0 < client_count d /\ client_count d' = client_count d - 1).
Proof.
  unfold dispatch. destruct (method r); simpl;
    repeat match goal with
           | |- context [String.eqb ?a ?b] => destruct (String.eqb a b); simpl
           | |- context [Z.ltb ?a ?b] => destruct (Z.ltb_spec a b); simpl
           end; auto.
Qed.

Section Turns.
Context `{HttpTypes}.
Variable e : env.

(** A property of the handler before and after [n] reads holds of
    [on_accept] when it holds of a handler that stops at once and is
    carried backwards over one turn of the loop. *)
Lemma on_accept_turns (R : handler -> handler -> nat -> Prop) :
  (forall h n, R h h n) ->
  (forall h r accesses hf n,
      existsb is_sem_op accesses = false ->
      existsb is_socket_write accesses = false ->
      R (mkHandler (snd (fst (dispatch r (shm h)))) r (trace h ++ accesses)) hf n ->
      R h hf (S n)) ->
  (forall h r accesses bytes hf n,
      existsb is_socket_write accesses = false ->
      R (mkHandler (snd (fst (dispatch r (shm h)))) r
           (trace h ++ accesses ++ [EvSocketWrite bytes])) hf n ->
      R h hf (S n)) ->
  forall reads h, R h (fst (on_accept e reads h)) (length reads).
Proof.
  intros Hstop Hsilent Hwrite.
  induction reads as [| client_msg reads IH]; intros h; [apply Hstop |].
  rewrite on_accept_cons. destruct client_msg as [| c msg]; [apply Hstop |].
  destruct (request (cstr (String c msg)) (req h)) as [r |]; [| apply Hstop].
  pose proof (dispatch_accesses r (shm h)) as [Hsem Hsock].
  destruct (dispatch r (shm h)) as [[res d] accesses] eqn:Hd. simpl in Hsem, Hsock.
  assert (Ed : d = snd (fst (dispatch r (shm h)))) by (rewrite Hd; reflexivity).
  destruct res as [res |].
  - destruct (response e res) as [bytes |]; simpl.
    + apply (Hwrite h r accesses bytes); [exact Hsock |]. rewrite <- Ed. apply IH.
    + apply (Hsilent h r accesses); [exact Hsem | exact Hsock |]. rewrite <- Ed. apply Hstop.
  - simpl. apply (Hsilent h r accesses); [exact Hsem | exact Hsock |]. rewrite <- Ed. apply IH.
Qed.

End Turns.

Lemma filter_no_writes (t : list event) :
  existsb is_socket_write t = false -> List.filter is_socket_write t = [].
Proof.
  induction t as [| ev t IH]; [reflexivity |]. simpl.
  intros [Hev Ht]%orb_false_elim. rewrite Hev. apply IH, Ht.
Qed.

End HandlerFacts.

Module HandlerSpec.
Import CLib Config Http Scenario HttpFacts ConfigFacts HandlerFacts.

Section Parsing.
Context `{HttpTypes}.

Lemma request_get tail route saved r :
  strtok " " tail = Some (route, saved) ->
  http_methods GET <> EmptyString -> lacks " " (http_methods GET) = true ->
  request (http_methods GET +:+ String " " tail) r = Done (mkReq GET route).
Proof.
  intros Htail Hne Hlacks. unfold request.
  rewrite (strtok_word _ _ _ Hne Hlacks). simpl.
  rewrite String.eqb_refl, address_from_after. simpl. rewrite Htail. reflexivity.
Qed.

Lemma request_post tail route saved r :
  strtok " " tail = Some (route, saved) ->
  http_methods POST <> EmptyString -> lacks " " (http_methods POST) = true ->
  http_methods POST <> http_methods GET ->
  request (http_methods POST +:+ String " " tail) r = Done (mkReq POST route).
Proof.
  intros Htail Hne Hlacks Hdiff. unfold request.
  rewrite (strtok_word _ _ _ Hne Hlacks). simpl.
  rewrite (proj2 (String.eqb_neq _ _) Hdiff), (strtok_whole _ _ Hne Hlacks). simpl.
  rewrite String.eqb_refl, address_from_after. simpl. rewrite Htail. reflexivity.
Qed.

(** X5: a request line made of a method name, one space and a route is
    read as that method and that route, whether the line ends after the
    route or goes on after another space.  The names of the table are
    words (not empty, without space) and differ. *)
Theorem request_line_parsed route rest r :
  http_methods GET <> EmptyString -> lacks " " (http_methods GET) = true ->
  http_methods POST <> EmptyString -> lacks " " (http_methods POST) = true ->
  http_methods POST <> http_methods GET ->
  route <> EmptyString -> lacks " " route = true ->
  request (http_methods GET +:+ String " " (route +:+ String " " rest)) r
    = Done (mkReq GET route) /\
  request (http_methods GET +:+ String " " route) r = Done (mkReq GET route) /\
  request (http_methods POST +:+ String " " (route +:+ String " " rest)) r
    = Done (mkReq POST route) /\
  request (http_methods POST +:+ String " " route) r = Done (mkReq POST route).
Proof.
  intros Hg Hgl Hp Hpl Hdiff Hr Hrl.
  pose proof (strtok_word " " route rest Hr Hrl) as Hlong.
  pose proof (strtok_whole " " route Hr Hrl) as Hshort.
  repeat split.
  - exact (request_get _ _ _ r Hlong Hg Hgl).
  - exact (request_get _ _ _ r Hshort Hg Hgl).
  - exact (request_post _ _ _ r Hlong Hp Hpl Hdiff).
  - exact (request_post _ _ _ r Hshort Hp Hpl Hdiff).
Qed.

(** X6: a message whose first word is neither of the two method names
    is not an error: [request] returns 0 and leaves the request of the
    previous turn in place, so that it is dispatched again. *)
Theorem unknown_method_keeps_request client_msg word saved r :
  strtok " " client_msg = Some (word, saved) ->
  word <> http_methods GET -> word <> http_methods POST ->
  request client_msg r = Done r.
Proof.
  intros Htok Hg Hp. unfold request. rewrite Htok. simpl.
  rewrite (proj2 (String.eqb_neq _ _) Hg), (strtok_token _ _ _ _ Htok). simpl.
  rewrite (proj2 (String.eqb_neq _ _) Hp). reflexivity.
Qed.

End Parsing.

Lemma request_line_parsed_witness :
  @request example_types "POST /dc HTTP/1.1" (mkReq NO_METHOD EmptyString)
  = Done (mkReq POST "/dc").
Proof.
  apply (@request_line_parsed example_types "/dc" "HTTP/1.1" (mkReq NO_METHOD EmptyString));
    first [discriminate | reflexivity].
Defined.

Lemma unknown_method_keeps_request_witness :
  @request example_types "DELETE /dc HTTP/1.1" (mkReq POST "/dc")
  = Done (mkReq POST "/dc").
Proof.
  apply (@unknown_method_keeps_request example_types "DELETE /dc HTTP/1.1"
           "DELETE" "/dc HTTP/1.1" (mkReq POST "/dc"));
    first [discriminate | reflexivity].
Defined.

Section Responses.
Context `{HttpTypes}.
Variable e : env.





(** X9: the handler of a connection never changes the four
    configuration fields of the shared record, whatever it reads from the
    socket and however it ends. *)
Theorem on_accept_keeps_configuration reads h k :
  get_field k (shm (fst (on_accept e reads h))) = get_field k (shm h).
Proof.
  revert reads h.
  apply (on_accept_turns e (fun h hf _ => get_field k (shm hf) = get_field k (shm h)));
    [reflexivity | |];
    intros h r; intros; simpl in *;
    destruct (dispatch_shm r (shm h)) as [c Hc];
    match goal with Hf : get_field k _ = _ |- _ => rewrite Hf, Hc end;
    destruct k; reflexivity.
Qed.

(** X10: the client counter moves by at most one per message read and
    stays at or above zero: from a counter that is not negative and with
    room below [INT_MAX] for the reads, the counter after [on_accept] lies
    between zero and the old value plus the number of reads, and not more
    than that number below the old value. *)
Theorem client_count_bounded reads h :
  0 <= client_count (shm h) ->
  client_count (shm h) + Z.of_nat (length reads) <= 2147483647 ->
  let after := client_count (shm (fst (on_accept e reads h))) in
  0 <= after /\
  client_count (shm h) - Z.of_nat (length reads) <= after
    <= client_count (shm h) + Z.of_nat (length reads).
Proof.
  revert reads h.
  apply (on_accept_turns e
           (fun h hf n =>
              0 <= client_count (shm h) ->
              client_count (shm h) + Z.of_nat n <= 2147483647 ->
              0 <= client_count (shm hf) /\
              client_count (shm h) - Z.of_nat n <= client_count (shm hf)
                <= client_count (shm h) + Z.of_nat n));
    [intros; lia | |];
    intros h r; intros; simpl in *;
    pose proof (dispatch_counter r (shm h)) as Hstep; simpl in Hstep;
    match goal with
    | IH : 0 <= _ -> _ -> _ |- _ =>
        destruct Hstep as [E | [E | [Hpos E]]];
        [| rewrite to_int_in_range in E by lia |];
        rewrite E in IH; lia
    end.
Qed.

(** X11: [on_accept] writes to the socket at most once for each message
    it reads. *)
Theorem one_write_per_read reads h :
  (length (List.filter is_socket_write (trace (fst (on_accept e reads h))))
   <= length (List.filter is_socket_write (trace h)) + length reads)%nat.
Proof.
  revert reads h.
  apply (on_accept_turns e
           (fun h hf n =>
              (length (List.filter is_socket_write (trace hf))
               <= length (List.filter is_socket_write (trace h)) + n)%nat));
    [intros; lia | |];
    intros h r; intros; simpl in *;
    match goal with
    | IH : (_ <= _)%nat |- _ =>
        rewrite ?List.filter_app, ?length_app in IH;
        rewrite (filter_no_writes accesses) in IH by assumption;
        simpl in IH; lia
    end.
Qed.

(** X12: [GET /] counts the client before the page is read.  When
    [index.html] cannot be opened the counter is already incremented, the
    handler stops in [response] and nothing was written. *)
Theorem get_root_counts_before_fault client_msg reads h :
  request (cstr client_msg) (req h) = Done (mkReq GET "/") ->
  disk e !! "web/index.html" = None ->
  on_accept e (client_msg :: reads) h
  = (mkHandler (set_client_count (to_int (client_count (shm h) + 1)) (shm h))
               (mkReq GET "/")
               (trace h ++ [EvCounterLoad (client_count (shm h));
                            EvCounterStore (to_int (client_count (shm h) + 1))]),
     Faulted).
Proof.
  intros Hreq Hfile. rewrite on_accept_cons.
  destruct client_msg as [| c msg]; [discriminate |].
  rewrite Hreq. unfold dispatch. simpl.
  rewrite (response_fopen_fails e _ "index.html"); [reflexivity | reflexivity | exact Hfile].
Qed.

End Responses.



Lemma client_count_bounded_witness :
  let after :=
    client_count (shm (fst (@on_accept example_types example_env
                              ["POST /dc HTTP/1.1"; "POST /dc HTTP/1.1"; "GET / HTTP/1.1"]
                              (mkHandler (mkServerData 5 10 1000 5 1)
                                         (mkReq NO_METHOD EmptyString) [])))) in
  0 <= after /\ 1 - 3 <= after <= 1 + 3.
Proof.
  apply (@client_count_bounded example_types example_env
           ["POST /dc HTTP/1.1"; "POST /dc HTTP/1.1"; "GET / HTTP/1.1"]
           (mkHandler (mkServerData 5 10 1000 5 1) (mkReq NO_METHOD EmptyString) []));
    simpl; lia.
Defined.

Lemma get_root_counts_before_fault_witness :
  let e := mkEnv ∅ example_date in
  @on_accept example_types e ["GET / HTTP/1.1"] example_handler
  = (mkHandler (mkServerData 5 10 1000 5 3) (mkReq GET "/")
       [EvCounterLoad 2; EvCounterStore 3], Faulted).
Proof.
  apply (@get_root_counts_before_fault example_types (mkEnv ∅ example_date)
           "GET / HTTP/1.1" [] example_handler); reflexivity.
Defined.

End HandlerSpec.

(** ** The accept cycle *)

Module ServerSpec.
Import Config Server.

Lemma deliveries_flag n s : flag_update_conf (deliveries (S n) s) = true.
Proof. reflexivity. Qed.

Lemma deliveries_shm n s : Server.shm (deliveries n s) = Server.shm s.
Proof. induction n as [| n IH]; [reflexivity | exact IH]. Qed.

(** X13: signals coalesce and nothing is reloaded without one.  After
    any number of deliveries of SIGUSR1 the next [on_start] does what it
    does after one, it leaves the flag clear, and an [on_start] that
    follows without a new signal changes nothing and prints nothing; the
    first [on_start] of a server always reloads. *)
Theorem signals_coalesce n path file path' file' s :
  let '(s1, _, _) := on_start path file (deliveries (S n) s) in
  on_start path file (deliveries (S n) s) = on_start path file (sigusr1_handler s) /\
  s1 = mkState false (shm_after (update_configuration path file (Server.shm s))) /\
  on_start path' file' s1 = (s1, [], Returned) /\
  fst (fst (on_start path file constructed))
    = mkState false (shm_after (update_configuration path file initial_data)).
Proof.
  unfold on_start. rewrite deliveries_flag. simpl.
  change (Server.shm (deliveries n s)) with (Server.shm (deliveries n s)).
  rewrite deliveries_shm. repeat split.
Qed.

End ServerSpec.

(** ** More on the semaphore handle *)

Module SemMore.
Import CLib SysV IpcFacts SemFacts.
Import Sem (value).

Lemma to_char_in_range z : -128 <= z <= 127 -> to_char z = z.
Proof.
  intros Hz. unfold to_char, wrap.
  change (2 ^ (8 - 1)) with 128. change (2 ^ 8) with 256.
  rewrite Z.mod_small; lia.
Qed.

Lemma to_char_range z : -128 <= to_char z <= 127.
Proof.
  unfold to_char, wrap. change (2 ^ (8 - 1)) with 128. change (2 ^ 8) with 256.
  pose proof (Z.mod_pos_bound (z + 128) 256). lia.
Qed.

Lemma to_int_small z : -2147483648 <= z <= 2147483647 -> to_int z = z.
Proof.
  intros H. unfold to_int, wrap.
  change (2 ^ (32 - 1)) with 2147483648. change (2 ^ 32) with 4294967296.
  rewrite Z.mod_small; lia.
Qed.

Lemma get_value s k v : value s k = Some v -> Sem.get s k = (to_char v, k).
Proof.
  unfold value, Sem.get, semctl_GETVAL.
  destruct (sem_sets k !! Sem.semid s) as [o |]; [| discriminate].
  intros [= <-]. reflexivity.
Qed.

Lemma set_in_range s v k o :
  sem_sets k !! Sem.semid s = Some o -> 0 <= v <= SEMVMX ->
  Sem.set s v k = (0, store_semval (Sem.semid s) o v k).
Proof.
  intros Hs Hv. unfold Sem.set, semctl_SETVAL. rewrite Hs.
  unfold SEMVMX in *. rewrite to_int_small by lia.
  destruct (Z.leb_spec 0 v); [| lia]. destruct (Z.leb_spec v 32767); [| lia]. reflexivity.
Qed.

Lemma set_out_of_range s v k :
  -2147483648 <= v <= 2147483647 -> v < 0 \/ SEMVMX < v ->
  Sem.set s v k = (-1, k).
Proof.
  intros Hint Hv. unfold Sem.set, semctl_SETVAL.
  destruct (sem_sets k !! Sem.semid s) as [o |]; [| reflexivity].
  unfold SEMVMX in *. rewrite to_int_small by lia.
  destruct (Z.leb_spec 0 v); destruct (Z.leb_spec v 32767); try lia; reflexivity.
Qed.

Lemma value_store_same s o v k : value s (store_semval (Sem.semid s) o v k) = Some v.
Proof. rewrite value_store. destruct (decide (Sem.semid s = Sem.semid s)); congruence. Qed.

Lemma sem_new_files tid path id create k r k' :
  Sem.new tid path id create k = (r, k') -> files k' = files k.
Proof.
  unfold Sem.new. destruct (ftok path id k =? -1); [intros [= _ <-]; reflexivity |].
  destruct create; unfold semget; destruct (sem_keys k !! ftok path id k) as [semid |]; simpl.
  - intros [= _ <-]. reflexivity.
  - destruct (Z.of_nat (next_id k) =? -1); [intros [= _ <-]; reflexivity |].
    unfold Sem.set, semctl_SETVAL. simpl. rewrite lookup_insert_eq. simpl.
    intros [= _ <-]. reflexivity.
  - destruct (semid =? -1); intros [= _ <-]; reflexivity.
  - intros [= _ <-]. reflexivity.
Qed.

Lemma ftok_files path id k k' : files k' = files k -> ftok path id k' = ftok path id k.
Proof. intros E. unfold ftok. rewrite E. reflexivity. Qed.

Lemma op_minus_one s k o :
  sem_sets k !! Sem.semid s = Some o ->
  Sem.op s (-1) k =
    if 1 <=? semval o
    then Returns 0 (store_semval (Sem.semid s) o (semval o - 1) k)
    else Blocks.
Proof. intros Hs. apply (op_negative s 1 k o Hs). lia. Qed.

(** X14: [set] and [get] round trip only for small values.  On an
    existing semaphore, [set(v)] with [0 <= v <= SEMVMX] returns 0 and the
    value is [v]; the [get()] that follows returns [v] cut to a [char]:
    it differs from [v] by a multiple of 256, it is [v] when [v] is at
    most 127 and it is not [v] when [v] is 256 or more. *)
Theorem set_then_get s v k o :
  sem_sets k !! Sem.semid s = Some o ->
  0 <= v <= SEMVMX ->
  exists k' got,
    Sem.set s v k = (0, k') /\
    value s k' = Some v /\
    Sem.get s k' = (got, k') /\
    (got - v) mod 256 = 0 /\
    (v <= 127 -> got = v) /\
    (256 <= v -> got <> v).
Proof.
  intros Hs Hv. exists (store_semval (Sem.semid s) o v k), (to_char v).
  split; [apply (set_in_range _ _ _ _ Hs Hv) |].
  split; [apply value_store_same |].
  split; [apply get_value, value_store_same |].
  pose proof (to_char_range v) as Hrange. split; [| split].
  - unfold to_char, wrap. change (2 ^ (8 - 1)) with 128. change (2 ^ 8) with 256.
    Z.to_euclidean_division_equations. lia.
  - intros Hsmall. apply to_char_in_range. lia.
  - lia.
Qed.

Lemma set_then_get_witness :
  exists k' got,
    Sem.set (Sem.mk 0 true) 300 (snd (Sem.new 100 "." 123 true Scenario.boot)) = (0, k') /\
    value (Sem.mk 0 true) k' = Some 300 /\
    Sem.get (Sem.mk 0 true) k' = (got, k') /\
    (got - 300) mod 256 = 0 /\
    (300 <= 127 -> got = 300) /\
    (256 <= 300 -> got <> 300).
Proof.
  apply (set_then_get (Sem.mk 0 true) 300 (snd (Sem.new 100 "." 123 true Scenario.boot))
           (mkSem 2063663105 1)).
  - vm_compute. reflexivity.
  - vm_compute. split; discriminate.
Defined.

(** X15: [set] rejects what is not a semaphore value.  For a negative
    [int] or one above [SEMVMX], [set] returns a result other than 0 and
    the kernel is unchanged, and [operator=] then returns what [get()]
    finds, without a sign of the failure. *)
Theorem set_rejects_out_of_range s v k :
  -2147483648 <= v <= 2147483647 ->
  v < 0 \/ SEMVMX < v ->
  fst (Sem.set s v k) <> 0 /\
  snd (Sem.set s v k) = k /\
  SemOps.assign s v k = Sem.get s k.
Proof.
  intros Hint Hv. pose proof (set_out_of_range s v k Hint Hv) as Hset.
  rewrite Hset. split; [discriminate |]. split; [reflexivity |].
  unfold SemOps.assign. rewrite Hset. reflexivity.
Qed.

Lemma set_rejects_out_of_range_witness :
  let k := snd (Sem.new 100 "." 123 true Scenario.boot) in
  fst (Sem.set (Sem.mk 0 true) 40000 k) <> 0 /\
  snd (Sem.set (Sem.mk 0 true) 40000 k) = k /\
  SemOps.assign (Sem.mk 0 true) 40000 k = Sem.get (Sem.mk 0 true) k.
Proof.
  intros k. apply (set_rejects_out_of_range (Sem.mk 0 true) 40000 k); vm_compute.
  - split; discriminate.
  - right. reflexivity.
Defined.

(** X16: [operator++] and [operator--] undo each other.  On a semaphore
    of value [v] below [SEMVMX], [++] returns and leaves [v + 1], and the
    [--] that follows returns and leaves [v]; each returns the new value
    cut to a [char]. *)
Theorem increment_then_decrement s k o :
  sem_sets k !! Sem.semid s = Some o ->
  0 <= semval o < SEMVMX ->
  exists k1 k2,
    SemOps.increment s k = Returns (to_char (semval o + 1)) k1 /\
    value s k1 = Some (semval o + 1) /\
    SemOps.decrement s k1 = Returns (to_char (semval o)) k2 /\
    value s k2 = Some (semval o).
Proof.
  intros Hs Hv. unfold SEMVMX in Hv.
  pose (o1 := mkSem (sem_key o) (semval o + 1)).
  pose (k1 := store_semval (Sem.semid s) o (semval o + 1) k).
  pose (k2 := store_semval (Sem.semid s) o1 (semval o1 - 1) k1).
  assert (Hv1 : value s k1 = Some (semval o + 1)) by apply value_store_same.
  assert (Hs1 : sem_sets k1 !! Sem.semid s = Some o1)
    by (unfold k1, store_semval; simpl; apply lookup_insert_eq).
  assert (Hv2 : value s k2 = Some (semval o)).
  { unfold k2. rewrite value_store_same. simpl. f_equal. lia. }
  exists k1, k2. repeat split; [| exact Hv1 | | exact Hv2].
  - unfold SemOps.increment.
    rewrite (op_positive s 1 k o Hs) by (unfold SEMVMX; lia).
    fold k1. rewrite (get_value _ _ _ Hv1). reflexivity.
  - unfold SemOps.decrement. rewrite (op_minus_one s k1 _ Hs1).
    destruct (Z.leb_spec 1 (semval o1)); [| simpl in *; lia].
    fold k2. rewrite (get_value _ _ _ Hv2). reflexivity.
Qed.

Lemma increment_then_decrement_witness :
  exists k1 k2,
    SemOps.increment (Sem.mk 0 true) (snd (Sem.new 100 "." 123 true Scenario.boot))
      = Returns (to_char (1 + 1)) k1 /\
    value (Sem.mk 0 true) k1 = Some (1 + 1) /\
    SemOps.decrement (Sem.mk 0 true) k1 = Returns (to_char 1) k2 /\
    value (Sem.mk 0 true) k2 = Some 1.
Proof.
  apply (increment_then_decrement (Sem.mk 0 true)
           (snd (Sem.new 100 "." 123 true Scenario.boot)) (mkSem 2063663105 1)).
  - vm_compute. reflexivity.
  - vm_compute. split; [discriminate | reflexivity].
Defined.

(** X17: the two ends of the range.  At value 0, [operator--] suspends
    the caller.  At value [SEMVMX], [operator++] adds nothing: [semop]
    fails, the failure is dropped, the kernel is unchanged, and the
    operator returns the value cut to a [char], which is not the
    value. *)
Theorem operators_at_the_bounds s k o :
  sem_sets k !! Sem.semid s = Some o ->
  (semval o = 0 -> SemOps.decrement s k = Blocks) /\
  (semval o = SEMVMX ->
   SemOps.increment s k = Returns (to_char SEMVMX) k /\ to_char SEMVMX <> SEMVMX).
Proof.
  intros Hs. split; intros Hv.
  - unfold SemOps.decrement. rewrite (op_minus_one s k o Hs), Hv. reflexivity.
  - split; [| discriminate].
    unfold SemOps.increment, Sem.op, semop1. rewrite Hs, Hv. simpl.
    rewrite (get_value s k SEMVMX) by (unfold value; rewrite Hs; simpl; f_equal; exact Hv).
    reflexivity.
Qed.

Lemma operators_at_the_bounds_witness :
  let k0 := snd (Sem.new 100 "." 123 true Scenario.boot) in
  let zero := snd (Sem.set (Sem.mk 0 true) 0 k0) in
  let full := snd (Sem.set (Sem.mk 0 true) 32767 k0) in
  SemOps.decrement (Sem.mk 0 true) zero = Blocks /\
  SemOps.increment (Sem.mk 0 true) full = Returns (to_char SEMVMX) full.
Proof.
  intros k0 zero full. split.
  - apply (proj1 (operators_at_the_bounds (Sem.mk 0 true) zero (mkSem 2063663105 0)
                    ltac:(vm_compute; reflexivity))). reflexivity.
  - apply (proj2 (operators_at_the_bounds (Sem.mk 0 true) full (mkSem 2063663105 32767)
                    ltac:(vm_compute; reflexivity))). reflexivity.
Defined.

(** X18: [Sem::exists] follows the life of the semaphore.  After a
    creation that succeeded it answers [true]; attaching with
    [create = false] then succeeds on the same set and changes nothing in
    the system; once the creator's handle is destroyed it answers
    [false]. *)
Theorem exists_follows_lifetime tid tid' tid'' path id k s k' :
  Sem.new tid path id true k = (inr s, k') ->
  SemOps.exists_ path id k' = true /\
  Sem.new tid' path id false k' = (inr (Sem.mk (Sem.semid s) false), k') /\
  SemOps.exists_ path id (Sem.delete tid'' s k') = false.
Proof.
  intros Hnew. pose proof (sem_new_files _ _ _ _ _ _ _ Hnew) as Hfiles.
  pose proof (ftok_files path id _ _ Hfiles) as Hkey.
  pose proof (sem_new_created _ _ _ _ _ _ Hnew) as (_ & Hcreator & Hkeys & Hset).
  assert (Hvalid : (ftok path id k =? -1) = false).
  { unfold Sem.new in Hnew. destruct (ftok path id k =? -1); [discriminate | reflexivity]. }
  assert (Hid : (Sem.semid s =? -1) = false).
  { unfold Sem.new in Hnew. rewrite Hvalid in Hnew. unfold semget in Hnew.
    destruct (sem_keys k !! ftok path id k); simpl in Hnew; [discriminate |].
    destruct (Z.of_nat (next_id k) =? -1) eqn:E; [discriminate |].
    unfold Sem.set, semctl_SETVAL in Hnew. simpl in Hnew.
    rewrite lookup_insert_eq in Hnew. simpl in Hnew.
    injection Hnew as <- _. exact E. }
  repeat split.
  - unfold SemOps.exists_, semget. rewrite Hkey, Hvalid, Hkeys. simpl. rewrite Hid. reflexivity.
  - unfold Sem.new, semget. rewrite Hkey, Hvalid, Hkeys. simpl. rewrite Hid. reflexivity.
  - unfold Sem.delete, semctl_IPC_RMID. rewrite Hcreator, Hset. simpl.
    unfold SemOps.exists_, semget, ftok. simpl. fold (ftok path id k').
    rewrite Hkey, Hvalid, lookup_delete_eq. reflexivity.
Qed.

Lemma exists_follows_lifetime_witness :
  let k' := snd (Sem.new 100 "." 123 true Scenario.boot) in
  SemOps.exists_ "." 123 k' = true /\
  Sem.new 200 "." 123 false k' = (inr (Sem.mk 0 false), k') /\
  SemOps.exists_ "." 123 (Sem.delete 100 (Sem.mk 0 true) k') = false.
Proof.
  intros k'.
  apply (exists_follows_lifetime 100 200 100 "." 123 Scenario.boot (Sem.mk 0 true) k').
  vm_compute. reflexivity.
Defined.

End SemMore.

(** ** The operations of the message queue *)

Module MsgFacts.
Import CLib SysV SysVMsg MsgQueueOps.

Lemma substring_0_ge n : forall s, (String.length s <= n)%nat -> substring 0 n s = s.
Proof.
  induction n as [| n IH]; intros [| c s]; simpl; intros Hlen; try reflexivity; [lia |].
  rewrite IH by lia. reflexivity.
Qed.

Lemma copied_whole size mtext :
  msgsz_of mtext <= size -> substring 0 (Z.to_nat size) mtext = mtext.
Proof. unfold msgsz_of. intros H. apply substring_0_ge. lia. Qed.

Lemma find_first_skip wanted : forall pre i mtype mtext post,
  Forall (fun m => wanted (fst m) = false) pre ->
  wanted mtype = true ->
  find_first wanted i (pre ++ (mtype, mtext) :: post) = Some (i + length pre)%nat.
Proof.
  induction pre as [| [t0 m0] pre IH]; intros i mtype mtext post Hpre Hwanted; simpl.
  - rewrite Hwanted. f_equal. lia.
  - inversion Hpre as [| ? ? Hhead Htail]; subst. simpl in Hhead. rewrite Hhead.
    rewrite (IH (S i) _ _ _ Htail Hwanted). f_equal. lia.
Qed.

Lemma find_first_none wanted : forall msgs i,
  Forall (fun m => wanted (fst m) = false) msgs -> find_first wanted i msgs = None.
Proof.
  induction msgs as [| [t0 m0] msgs IH]; intros i Hall; simpl; [reflexivity |].
  inversion Hall as [| ? ? Hhead Htail]; subst. simpl in Hhead. rewrite Hhead.
  apply IH, Htail.
Qed.

Lemma other_type_unwanted mtype (msgs : list (Z * string)) :
  Forall (fun m => fst m <> mtype) msgs ->
  Forall (fun m => (fst m =? mtype) = false) msgs.
Proof.
  intros Hall. eapply Forall_impl; [exact Hall |].
  intros m Hm. apply Z.eqb_neq, Hm.
Qed.

(** Storing twice is storing the last; storing what is there changes
    nothing. *)
Lemma store_messages_twice msqid q q' msgs msgs' k :
  msq_key q' = msq_key q ->
  store_messages msqid q' msgs' (store_messages msqid q msgs k)
  = store_messages msqid q msgs' k.
Proof.
  intros Hkey. unfold store_messages. simpl. rewrite insert_insert_eq, Hkey. reflexivity.
Qed.

Lemma store_messages_same msqid q k :
  msq_queues k !! msqid = Some q -> store_messages msqid q (msq_messages q) k = k.
Proof.
  intros Hq. unfold store_messages. destruct q as [key msgs]. simpl.
  rewrite (insert_id _ _ _ Hq). destruct k; reflexivity.
Qed.

Lemma lookup_store_messages msqid q msgs k :
  msq_queues (store_messages msqid q msgs k) !! msqid = Some (mkMsq (msq_key q) msgs).
Proof. unfold store_messages. simpl. apply lookup_insert_eq. Qed.

(** [write] when the queue has room. *)
Lemma write_room this msg mtype k q :
  msq_queues k !! MsgQueue.msg_id this = Some q ->
  msgsz_of msg <= MSGMAX ->
  queue_bytes (msq_messages q) + msgsz_of msg <= MSGMNB ->
  Z.of_nat (length (msq_messages q)) + 1 <= MSGMNB ->
  write this msg mtype k
  = Completes 0
      (store_messages (MsgQueue.msg_id this) q
         (msq_messages q ++ [(if mtype <=? 0 then 1 else mtype, msg)]) k).
Proof.
  intros Hq Hmax Hbytes Hcount. unfold write, msgsnd. rewrite Hq.
  assert (Htype : ((if mtype <=? 0 then 1 else mtype) <? 1) = false)
    by (destruct (Z.leb_spec mtype 0); apply Z.ltb_ge; lia).
  rewrite Htype. simpl.
  destruct (Z.ltb_spec MSGMAX (msgsz_of msg)); [lia |]. simpl.
  destruct (Z.leb_spec (queue_bytes (msq_messages q) + msgsz_of msg) MSGMNB); [| lia].
  destruct (Z.leb_spec (Z.of_nat (length (msq_messages q)) + 1) MSGMNB); [| lia].
  reflexivity.
Qed.

(** A [write] that returned 0 appended its message. *)
Lemma write_done this msg mtype k q k' :
  msq_queues k !! MsgQueue.msg_id this = Some q ->
  write this msg mtype k = Completes 0 k' ->
  k' = store_messages (MsgQueue.msg_id this) q
         (msq_messages q ++ [(if mtype <=? 0 then 1 else mtype, msg)]) k.
Proof.
  intros Hq. unfold write, msgsnd. rewrite Hq.
  destruct ((_ <? 1) || (MSGMAX <? msgsz_of msg)); [discriminate |].
  destruct (_ && _); [intros [= <-]; reflexivity |]. simpl. discriminate.
Qed.

(** A blocking [read] with a positive selector takes the first message
    of that type. *)
Lemma read_typed size this mtype k q pre mtext post :
  msq_queues k !! MsgQueue.msg_id this = Some q ->
  msq_messages q = pre ++ (mtype, mtext) :: post ->
  Forall (fun m => fst m <> mtype) pre ->
  0 < mtype -> msgsz_of mtext <= size ->
  read size this mtype 0 k
  = Completes (Some mtext, 0)
      (store_messages (MsgQueue.msg_id this) q (pre ++ post) k).
Proof.
  intros Hq Hmsgs Hpre Htype Hsize. unfold read, msgrcv. rewrite Hq, Hmsgs.
  assert (Hsz : (size <? 0) = false) by (apply Z.ltb_ge; unfold msgsz_of in Hsize; lia).
  rewrite Hsz. simpl. unfold select_message. simpl.
  destruct (Z.eqb_spec mtype 0); [lia |]. destruct (Z.ltb_spec 0 mtype); [| lia].
  rewrite (find_first_skip (fun t => t =? mtype) pre O mtype mtext post
             (other_type_unwanted _ _ Hpre) (Z.eqb_refl _)).
  simpl. rewrite list_lookup_middle by reflexivity.
  destruct (Z.ltb_spec size (msgsz_of mtext)); [lia |]. simpl.
  rewrite (copied_whole _ _ Hsize), delete_middle.
  destruct (msgsz_of mtext =? -1) eqn:E;
    [apply Z.eqb_eq in E; unfold msgsz_of in E; lia | reflexivity].
Qed.

End MsgFacts.

Module MsgSpec.
Import CLib SysV SysVMsg MsgQueueOps MsgFacts Vocabulary.

(** X19: [write] appends.  When the queue has room, [write] returns 0
    and the message is the last of the queue, under the type given, or
    under type 1 when the type given is zero or negative; the messages
    already there keep their places. *)
Theorem write_appends this msg mtype k q :
  msq_queues k !! MsgQueue.msg_id this = Some q ->
  msgsz_of msg <= MSGMAX ->
  queue_bytes (msq_messages q) + msgsz_of msg <= MSGMNB ->
  Z.of_nat (length (msq_messages q)) + 1 <= MSGMNB ->
  exists k',
    write this msg mtype k = Completes 0 k' /\
    contents this k'
    = Some (msq_messages q ++ [(if mtype <=? 0 then 1 else mtype, msg)]) /\
    put this msg k
    = Completes 0
        (store_messages (MsgQueue.msg_id this) q (msq_messages q ++ [(1, msg)]) k).
Proof.
  intros Hq Hmax Hbytes Hcount. eexists. split; [apply (write_room _ _ _ _ _ Hq); assumption |].
  split.
  - unfold contents. rewrite lookup_store_messages. reflexivity.
  - unfold put. rewrite (write_room _ _ 1 _ _ Hq) by assumption. reflexivity.
Qed.

Lemma write_appends_witness :
  exists k',
    write example_queue "ping" 0 empty_queue_kernel = Completes 0 k' /\
    contents example_queue k' = Some ([] ++ [(1, "ping")]) /\
    put example_queue "ping" empty_queue_kernel
    = Completes 0
        (store_messages 0 (mkMsq 2063663105 []) ([] ++ [(1, "ping")]) empty_queue_kernel).
Proof.
  apply (write_appends example_queue "ping" 0 empty_queue_kernel (mkMsq 2063663105 []));
    vm_compute; first [reflexivity | discriminate].
Defined.

(** X20: when [write] does not append.  On a queue that is gone, or for
    a message above [MSGMAX] bytes, it returns [-1] and nothing changes;
    on a queue without room for the message it suspends the caller. *)
Theorem write_refused this msg mtype k :
  (msq_queues k !! MsgQueue.msg_id this = None -> write this msg mtype k = Completes (-1) k) /\
  (MSGMAX < msgsz_of msg -> write this msg mtype k = Completes (-1) k) /\
  (forall q,
      msq_queues k !! MsgQueue.msg_id this = Some q ->
      msgsz_of msg <= MSGMAX ->
      MSGMNB < queue_bytes (msq_messages q) + msgsz_of msg ->
      write this msg mtype k = Suspends).
Proof.
  repeat split.
  - intros Hq. unfold write, msgsnd. rewrite Hq. reflexivity.
  - intros Hbig. unfold write, msgsnd.
    destruct (msq_queues k !! MsgQueue.msg_id this); [| reflexivity].
    destruct (Z.ltb_spec MSGMAX (msgsz_of msg)); [| lia].
    rewrite orb_true_r. reflexivity.
  - intros q Hq Hmax Hfull. unfold write, msgsnd. rewrite Hq.
    assert (Htype : ((if mtype <=? 0 then 1 else mtype) <? 1) = false)
      by (destruct (Z.leb_spec mtype 0); apply Z.ltb_ge; lia).
    rewrite Htype. destruct (Z.ltb_spec MSGMAX (msgsz_of msg)); [lia |]. simpl.
    destruct (Z.leb_spec (queue_bytes (msq_messages q) + msgsz_of msg) MSGMNB); [lia |].
    reflexivity.
Qed.

Lemma write_refused_witness :
  write (MsgQueue.mk 5 false 100) "ping" 1 Scenario.boot = Completes (-1) Scenario.boot.
Proof.
  apply (proj1 (write_refused (MsgQueue.mk 5 false 100) "ping" 1 Scenario.boot)).
  reflexivity.
Defined.

(** X21: a blocking [read] with a positive selector returns the oldest
    message of that type, takes it out of the queue and leaves the others
    in their order; with the selector 0 it takes the oldest message of
    all. *)
Theorem read_takes_oldest size this mtype k q pre mtext post :
  msq_queues k !! MsgQueue.msg_id this = Some q ->
  msq_messages q = pre ++ (mtype, mtext) :: post ->
  Forall (fun m => fst m <> mtype) pre ->
  0 < mtype -> msgsz_of mtext <= size ->
  read size this mtype 0 k
    = Completes (Some mtext, 0)
        (store_messages (MsgQueue.msg_id this) q (pre ++ post) k) /\
  (pre = [] ->
   take size this k
   = Completes (Some mtext, 0) (store_messages (MsgQueue.msg_id this) q post k)).
Proof.
  intros Hq Hmsgs Hpre Htype Hsize.
  split; [apply (read_typed _ _ _ _ _ _ _ _ Hq Hmsgs Hpre Htype Hsize) |].
  intros ->. simpl in Hmsgs. unfold take, read, msgrcv. rewrite Hq, Hmsgs.
  assert (Hsz : (size <? 0) = false) by (apply Z.ltb_ge; unfold msgsz_of in Hsize; lia).
  rewrite Hsz. simpl.
  destruct (Z.ltb_spec size (msgsz_of mtext)); [lia |]. simpl.
  rewrite (copied_whole _ _ Hsize).
  destruct (msgsz_of mtext =? -1) eqn:E;
    [apply Z.eqb_eq in E; unfold msgsz_of in E; lia | reflexivity].
Qed.

Lemma read_takes_oldest_witness :
  read 8 example_queue 1 0 queue_kernel
  = Completes (Some "second", 0)
      (store_messages 0 (mkMsq 2063663105 [(2, "first"); (1, "second")])
         ([(2, "first")] ++ []) queue_kernel).
Proof.
  apply (read_takes_oldest 8 example_queue 1 queue_kernel
           (mkMsq 2063663105 [(2, "first"); (1, "second")]) [(2, "first")] "second" []).
  - vm_compute. reflexivity.
  - reflexivity.
  - repeat constructor. simpl. lia.
  - lia.
  - vm_compute. discriminate.
Defined.

(** What the queue holds after a [write_all] that went through. *)
Lemma write_all_done this mtype : forall msgs k q k1,
  msq_queues k !! MsgQueue.msg_id this = Some q ->
  0 < mtype ->
  write_all this msgs mtype k = Some k1 ->
  k1 = store_messages (MsgQueue.msg_id this) q
         (msq_messages q ++ map (pair mtype) msgs) k.
Proof.
  induction msgs as [| msg msgs IH]; intros k q k1 Hq Htype; simpl.
  - intros [= <-]. rewrite app_nil_r. symmetry. apply store_messages_same, Hq.
  - destruct (write this msg mtype k) as [ret k' |] eqn:Hwrite; [| discriminate].
    destruct ret as [| p | p]; try discriminate.
    apply (write_done _ _ _ _ _ _ Hq) in Hwrite.
    destruct (Z.leb_spec mtype 0); [lia |]. intros Hrest.
    apply (IH k' (mkMsq (msq_key q) (msq_messages q ++ [(mtype, msg)]))) in Hrest;
      [| rewrite Hwrite; apply lookup_store_messages | exact Htype].
    rewrite Hrest, Hwrite. simpl.
    rewrite store_messages_twice by reflexivity. rewrite <- app_assoc. reflexivity.
Qed.

(** Reading back the messages of one type that are at the end of the
    queue. *)
Lemma read_all_from size this mtype : forall msgs k q old,
  msq_queues k !! MsgQueue.msg_id this = Some q ->
  msq_messages q = old ++ map (pair mtype) msgs ->
  Forall (fun m => fst m <> mtype) old ->
  0 < mtype ->
  Forall (fun msg => msgsz_of msg <= size) msgs ->
  read_all size this (length msgs) mtype k
  = Some (msgs, store_messages (MsgQueue.msg_id this) q old k).
Proof.
  induction msgs as [| msg msgs IH]; intros k q old Hq Hmsgs Hold Htype Hsizes; simpl.
  - simpl in Hmsgs. rewrite app_nil_r in Hmsgs. rewrite <- Hmsgs.
    rewrite (store_messages_same _ _ _ Hq). reflexivity.
  - inversion Hsizes as [| ? ? Hsize Hrest]; subst.
    rewrite (read_typed size this mtype k q old msg (map (pair mtype) msgs)
               Hq Hmsgs Hold Htype Hsize).
    rewrite (IH _ (mkMsq (msq_key q) (old ++ map (pair mtype) msgs)) old
               (lookup_store_messages _ _ _ _) eq_refl Hold Htype Hrest).
    simpl. rewrite store_messages_twice by reflexivity. reflexivity.
Qed.

(** X22: first in, first out.  On a queue that holds no message of the
    type [mtype], after the messages [msgs] were written one after the
    other with that type, as many blocking reads with the selector
    [mtype] return [msgs] in the order written, and the system is again as
    it was before the writes. *)
Theorem fifo_round_trip size this mtype msgs k q k1 :
  msq_queues k !! MsgQueue.msg_id this = Some q ->
  0 < mtype ->
  Forall (fun m => fst m <> mtype) (msq_messages q) ->
  Forall (fun msg => msgsz_of msg <= size) msgs ->
  write_all this msgs mtype k = Some k1 ->
  read_all size this (length msgs) mtype k1 = Some (msgs, k).
Proof.
  intros Hq Htype Hold Hsizes Hwrite.
  apply (write_all_done _ _ _ _ _ _ Hq Htype) in Hwrite. subst k1.
  rewrite (read_all_from size this mtype msgs _
             (mkMsq (msq_key q) (msq_messages q ++ map (pair mtype) msgs))
             (msq_messages q) (lookup_store_messages _ _ _ _) eq_refl Hold Htype Hsizes).
  simpl. rewrite store_messages_twice by reflexivity.
  rewrite (store_messages_same _ _ _ Hq). reflexivity.
Qed.

Lemma fifo_round_trip_witness :
  exists k1,
    write_all example_queue ["a1"; "a2"; "a3"] 5 queue_kernel = Some k1 /\
    read_all 8 example_queue 3 5 k1 = Some (["a1"; "a2"; "a3"], queue_kernel).
Proof.
  destruct (write_all example_queue ["a1"; "a2"; "a3"] 5 queue_kernel) as [k1 |] eqn:Hwrite;
    [| vm_compute in Hwrite; discriminate].
  exists k1. split; [reflexivity |].
  apply (fifo_round_trip 8 example_queue 5 ["a1"; "a2"; "a3"] queue_kernel
           (mkMsq 2063663105 [(2, "first"); (1, "second")]) k1).
  - vm_compute. reflexivity.
  - lia.
  - repeat constructor; simpl; lia.
  - repeat constructor; vm_compute; discriminate.
  - exact Hwrite.
Defined.

(** X23: a [read] that finds no message of the type asked for.  With
    [IPC_NOWAIT] it returns at once, [*status] receives [ENOMSG],
    [output.msg] was never written and the queue is as before; without the
    flag the caller is suspended. *)
Theorem read_without_match size this mtype k q :
  msq_queues k !! MsgQueue.msg_id this = Some q ->
  Forall (fun m => fst m <> mtype) (msq_messages q) ->
  0 < mtype -> 0 <= size ->
  read size this mtype IPC_NOWAIT k = Completes (None, ENOMSG) k /\
  read size this mtype 0 k = Suspends.
Proof.
  intros Hq Hnone Htype Hsize. unfold read, msgrcv. rewrite Hq.
  destruct (Z.ltb_spec size 0); [lia |]. simpl. unfold select_message. simpl.
  destruct (Z.eqb_spec mtype 0); [lia |]. destruct (Z.ltb_spec 0 mtype); [| lia].
  rewrite (find_first_none (fun t => t =? mtype) _ O (other_type_unwanted _ _ Hnone)).
  split; reflexivity.
Qed.

Lemma read_without_match_witness :
  read 8 example_queue 3 IPC_NOWAIT queue_kernel = Completes (None, ENOMSG) queue_kernel /\
  read 8 example_queue 3 0 queue_kernel = Suspends.
Proof.
  apply (read_without_match 8 example_queue 3 queue_kernel
           (mkMsq 2063663105 [(2, "first"); (1, "second")])).
  - vm_compute. reflexivity.
  - repeat constructor; simpl; lia.
  - lia.
  - lia.
Defined.

(** X24: [peek] only looks.  It never suspends the caller and never
    changes the system; at a position that holds a message it returns that
    message with status 0, and at a position past the end of the queue the
    status is [ENOMSG]. *)
Theorem peek_only_looks size this index k :
  (exists a, peek size this index k = Completes a k) /\
  (forall q i mtype mtext,
      msq_queues k !! MsgQueue.msg_id this = Some q ->
      msq_messages q !! i = Some (mtype, mtext) ->
      index = Z.of_nat i -> msgsz_of mtext <= size ->
      peek size this index k = Completes (Some mtext, 0) k) /\
  (forall q,
      msq_queues k !! MsgQueue.msg_id this = Some q ->
      Z.of_nat (length (msq_messages q)) <= index -> 0 <= size ->
      peek size this index k = Completes (None, ENOMSG) k).
Proof.
  assert (Hflags : has_flag (Z.lor IPC_NOWAIT MSG_COPY) MSG_COPY = true /\
                   has_flag (Z.lor IPC_NOWAIT MSG_COPY) IPC_NOWAIT = true /\
                   has_flag (Z.lor IPC_NOWAIT MSG_COPY) MSG_EXCEPT = false /\
                   has_flag (Z.lor IPC_NOWAIT MSG_COPY) MSG_NOERROR = false)
    by (repeat split).
  destruct Hflags as (Hcopy & Hnowait & Hexcept & Hnoerror).
  unfold peek, read, msgrcv, select_message.
  rewrite Hcopy, Hnowait, Hexcept, Hnoerror. simpl.
  repeat split.
  - destruct (msq_queues k !! MsgQueue.msg_id this) as [q |]; [| eauto].
    destruct (size <? 0); simpl; [eauto |].
    destruct ((0 <=? index) && (index <? Z.of_nat (length (msq_messages q)))); [| eauto].
    destruct (msq_messages q !! Z.to_nat index) as [[mtype mtext] |]; [| eauto].
    destruct (size <? msgsz_of mtext); simpl; eauto.
  - intros q i mtype mtext Hq Hi -> Hsize. rewrite Hq.
    destruct (Z.ltb_spec size 0); [unfold msgsz_of in Hsize; lia |]. simpl.
    pose proof (lookup_lt_Some _ _ _ Hi) as Hlt.
    destruct (Z.leb_spec 0 (Z.of_nat i)); [| lia].
    destruct (Z.ltb_spec (Z.of_nat i) (Z.of_nat (length (msq_messages q)))); [| lia].
    simpl. rewrite Nat2Z.id, Hi.
    destruct (Z.ltb_spec size (msgsz_of mtext)); [lia |]. simpl.
    rewrite (copied_whole _ _ Hsize).
    destruct (msgsz_of mtext =? -1) eqn:E;
      [apply Z.eqb_eq in E; unfold msgsz_of in E; lia | reflexivity].
  - intros q Hq Hpast Hsize. rewrite Hq.
    destruct (Z.ltb_spec size 0); [lia |]. simpl.
    destruct (Z.ltb_spec index (Z.of_nat (length (msq_messages q)))); [lia |].
    rewrite andb_false_r. reflexivity.
Qed.

Lemma peek_only_looks_witness :
  peek 8 example_queue 1 queue_kernel = Completes (Some "second", 0) queue_kernel /\
  peek 8 example_queue 2 queue_kernel = Completes (None, ENOMSG) queue_kernel.
Proof.
  split.
  - apply (proj1 (proj2 (peek_only_looks 8 example_queue 1 queue_kernel))
             (mkMsq 2063663105 [(2, "first"); (1, "second")]) 1%nat 1 "second");
      vm_compute; first [reflexivity | discriminate].
  - apply (proj2 (proj2 (peek_only_looks 8 example_queue 2 queue_kernel))
             (mkMsq 2063663105 [(2, "first"); (1, "second")]));
      vm_compute; first [reflexivity | discriminate].
Defined.

(** X25: [MsgQueue::exists] follows the life of the queue.  After a
    creation that succeeded the queue is empty and [exists] answers
    [true]; attaching then succeeds on the same queue and changes nothing;
    destroying the creator's handle from another thread leaves the queue,
    and destroying it from the creating thread removes it, after which
    [exists] answers [false]. *)
Theorem queue_exists_follows_lifetime tid tid' path id k this k' :
  MsgQueue.new tid path id true k = (inr this, k') ->
  contents this k' = Some [] /\
  exists_ path id k' = true /\
  MsgQueue.new tid' path id false k'
    = (inr (MsgQueue.mk (MsgQueue.msg_id this) false tid'), k') /\
  (tid' <> tid -> exists_ path id (MsgQueue.delete tid' this k') = true) /\
  exists_ path id (MsgQueue.delete tid this k') = false.
Proof.
  unfold MsgQueue.new. destruct (ftok path id k =? -1) eqn:Hvalid; [discriminate |].
  unfold msgget. destruct (msq_keys k !! ftok path id k) eqn:Hfree; simpl; [discriminate |].
  destruct (Z.of_nat (next_id k) =? -1) eqn:Hid; [discriminate |].
  intros [= <- <-]. simpl.
  assert (Hkey : forall k2, files k2 = files k -> ftok path id k2 = ftok path id k)
    by (intros k2 E; unfold ftok; rewrite E; reflexivity).
  set (k' := mkKernel _ _ _ _ _ _).
  assert (Hexists : exists_ path id k' = true).
  { unfold exists_, msgget. rewrite (Hkey k' eq_refl), Hvalid. simpl.
    rewrite lookup_insert_eq. simpl. rewrite Hid. reflexivity. }
  repeat split.
  - unfold contents. simpl. rewrite lookup_insert_eq. reflexivity.
  - exact Hexists.
  - rewrite (Hkey k' eq_refl), Hvalid. simpl. rewrite lookup_insert_eq. simpl.
    rewrite Hid. reflexivity.
  - intros Hother. unfold MsgQueue.delete. simpl.
    destruct (Z.eqb_spec tid tid'); [congruence | exact Hexists].
  - unfold MsgQueue.delete, msgctl_IPC_RMID. simpl. rewrite Z.eqb_refl, lookup_insert_eq.
    simpl. unfold exists_, msgget, ftok. simpl. fold (ftok path id k).
    rewrite Hvalid. simpl. rewrite lookup_delete_eq. reflexivity.
Qed.

Lemma queue_exists_follows_lifetime_witness :
  contents example_queue empty_queue_kernel = Some [] /\
  exists_ "." 123 empty_queue_kernel = true /\
  MsgQueue.new 200 "." 123 false empty_queue_kernel
    = (inr (MsgQueue.mk 0 false 200), empty_queue_kernel) /\
  (200 <> 100 -> exists_ "." 123 (MsgQueue.delete 200 example_queue empty_queue_kernel) = true) /\
  exists_ "." 123 (MsgQueue.delete 100 example_queue empty_queue_kernel) = false.
Proof.
  apply (queue_exists_follows_lifetime 100 200 "." 123 Scenario.boot example_queue
           empty_queue_kernel).
  vm_compute. reflexivity.
Defined.

End MsgSpec.

(** ** Signals and timers *)

Module SignalSpec.
Import CLib Signal.

#[local] Set Warnings "-clear-no-such-hyp".

Lemma to_long_small z :
  -9223372036854775808 <= z <= 9223372036854775807 -> to_long z = z.
Proof.
  intros H. unfold to_long, wrap.
  change (2 ^ (64 - 1)) with 9223372036854775808.
  change (2 ^ 64) with 18446744073709551616.
  rewrite Z.mod_small; lia.
Qed.

(** The [timeval] that the two [set_timer] functions build from a number
    of milliseconds that is not negative. *)
Lemma timeval_of_msec msec :
  0 <= msec <= 9223372036854775 ->
  Z.quot msec 1000 = msec / 1000 /\
  Z.rem (to_long (msec * 1000)) 1000000 = (msec mod 1000) * 1000.
Proof.
  intros Hmsec. split; [apply Z.quot_div_nonneg; lia |].
  rewrite to_long_small by lia. rewrite Z.rem_mod_nonneg by lia.
  change 1000000 with (1000 * 1000). rewrite Z.mul_mod_distr_r by lia. reflexivity.
Qed.

Lemma timeval_of_msec_valid msec :
  0 <= msec <= 9223372036854775 ->
  timeval_valid (mkTimeval (msec / 1000) ((msec mod 1000) * 1000)) = true.
Proof.
  intros Hmsec. unfold timeval_valid. simpl.
  pose proof (Z.mod_pos_bound msec 1000 ltac:(lia)).
  pose proof (Z.div_pos msec 1000 ltac:(lia) ltac:(lia)).
  destruct (Z.leb_spec 0 (msec / 1000)); [| lia].
  destruct (Z.leb_spec 0 (msec mod 1000 * 1000)); [| lia].
  destruct (Z.ltb_spec (msec mod 1000 * 1000) 1000000); [reflexivity | lia].
Qed.

(** Below [KTIME_SEC_MAX] seconds the kernel holds the time as it is. *)
Lemma ktime_of_msec msec :
  0 <= msec <= 9223372035999 ->
  let value := mkTimeval (msec / 1000) ((msec mod 1000) * 1000) in
  timeval_to_ktime value = msec * 1000000 /\
  ktime_to_timeval (msec * 1000000) = value.
Proof.
  intros Hmsec value. unfold timeval_to_ktime, ktime_to_timeval, value.
  unfold KTIME_SEC_MAX, NSEC_PER_SEC, NSEC_PER_USEC. simpl tv_sec. simpl tv_usec.
  destruct (Z.leb_spec 9223372036 (msec / 1000)) as [Hbig |];
    [exfalso; Z.to_euclidean_division_equations; lia |].
  split; [Z.to_euclidean_division_equations; lia |].
  f_equal; Z.to_euclidean_division_equations; lia.
Qed.

(** What [setitimer] holds for a timer of [msec] milliseconds. *)
Lemma setitimer_msec msec (periodic : bool) current :
  0 <= msec <= 9223372035999 ->
  let value := mkTimeval (msec / 1000) ((msec mod 1000) * 1000) in
  let interval := if periodic then value else mkTimeval 0 0 in
  setitimer (mkItimerval interval value) current = (0, mkItimerval interval value).
Proof.
  intros Hmsec value interval.
  destruct (ktime_of_msec msec Hmsec) as [Hns Hback]. fold value in Hns, Hback.
  pose proof (timeval_of_msec_valid msec ltac:(lia)) as Hvalid. fold value in Hvalid.
  assert (Hinterval : timeval_valid interval = true)
    by (unfold interval; destruct periodic; [exact Hvalid | reflexivity]).
  unfold setitimer. cbn [it_interval it_value]. rewrite Hinterval, Hvalid, Hns.
  cbn [andb]. destruct (Z.eqb_spec (msec * 1000000) 0) as [Hzero | Hpos].
  - assert (msec = 0) as -> by lia. unfold interval, value. destruct periodic; reflexivity.
  - rewrite Hback. unfold interval. destruct periodic; [rewrite Hns, Hback |]; reflexivity.
Qed.

(** What [get_timer_time] reads of an armed timer before it expires. *)
Lemma get_timer_time_msec msec interval now elapsed :
  0 <= msec <= 9223372035999 ->
  0 <= elapsed <= now ->
  elapsed < msec * 1000000 ->
  now - elapsed + msec * 1000000 <= KTIME_MAX ->
  get_timer_time now elapsed
    (mkItimerval interval (mkTimeval (msec / 1000) ((msec mod 1000) * 1000)))
  = Some ((msec * 1000000 - elapsed) / 1000000).
Proof.
  intros Hmsec Helapsed Hrunning Hclock.
  destruct (ktime_of_msec msec Hmsec) as [Hns _].
  unfold get_timer_time, getitimer. cbn [it_value it_interval]. rewrite Hns.
  destruct (Z.eqb_spec (msec * 1000000) 0); [lia |].
  rewrite Z.min_l by exact Hclock.
  destruct (Z.ltb_spec now (now - elapsed + msec * 1000000)); [| lia].
  replace (now - elapsed + msec * 1000000 - now) with (msec * 1000000 - elapsed) by lia.
  simpl. f_equal. unfold NSEC_PER_SEC, NSEC_PER_USEC.
  set (left := msec * 1000000 - elapsed).
  assert (Hleft : 0 < left <= 9223372035999000000) by (unfold left; lia).
  assert (Hsec : 0 <= left / 1000000000 <= 9223372035)
    by (Z.to_euclidean_division_equations; lia).
  assert (Husec : 0 <= left mod 1000000000 / 1000 < 1000000)
    by (Z.to_euclidean_division_equations; lia).
  rewrite Z.quot_div_nonneg by lia.
  rewrite (to_long_small (left / 1000000000 * 1000)) by lia.
  assert (Hms : 0 <= left mod 1000000000 / 1000 / 1000 < 1000)
    by (Z.to_euclidean_division_equations; lia).
  rewrite to_long_small by lia.
  Z.to_euclidean_division_equations; lia.
Qed.

(** X26: the timer functions convert milliseconds exactly, and the
    timer counts down.  For a number of milliseconds that is not negative
    and below what the kernel cuts ([KTIME_SEC_MAX] seconds),
    [set_timer_single_shot] and [set_timer_periodic] return 0 and arm the
    timer with exactly that time; the single shot has no period, the
    periodic timer has its value as period, and 0 milliseconds disarm the
    timer as [unset_timer] does.  While the timer has not expired,
    [get_timer_time] returns the whole milliseconds that remain: the
    milliseconds set when no time has passed, fewer afterwards. *)
Theorem timer_round_trip msec current now elapsed :
  0 <= msec <= 9223372035999 ->
  let value := mkTimeval (msec / 1000) ((msec mod 1000) * 1000) in
  set_timer_single_shot msec current = (0, mkItimerval (mkTimeval 0 0) value) /\
  set_timer_periodic msec current = (0, mkItimerval value value) /\
  (msec = 0 -> set_timer_single_shot msec current = unset_timer current) /\
  (0 <= elapsed <= now ->
   elapsed < msec * 1000000 ->
   now - elapsed + msec * 1000000 <= KTIME_MAX ->
   let remaining := Some ((msec * 1000000 - elapsed) / 1000000) in
   get_timer_time now elapsed (snd (set_timer_single_shot msec current)) = remaining /\
   get_timer_time now elapsed (snd (set_timer_periodic msec current)) = remaining /\
   (msec * 1000000 - elapsed) / 1000000 <= msec /\
   (elapsed = 0 -> remaining = Some msec)).
Proof.
  intros Hmsec value.
  destruct (timeval_of_msec msec ltac:(lia)) as [Hsec Husec].
  assert (Hshot : set_timer_single_shot msec current
                  = (0, mkItimerval (mkTimeval 0 0) value)).
  { unfold set_timer_single_shot. rewrite Hsec, Husec.
    exact (setitimer_msec msec false current Hmsec). }
  assert (Hperiodic : set_timer_periodic msec current = (0, mkItimerval value value)).
  { unfold set_timer_periodic. rewrite Hsec, Husec.
    exact (setitimer_msec msec true current Hmsec). }
  split; [exact Hshot |]. split; [exact Hperiodic |]. split.
  - intros ->. reflexivity.
  - intros Helapsed Hrunning Hclock remaining. rewrite Hshot, Hperiodic.
    cbn [snd]. unfold remaining, value.
    split; [apply get_timer_time_msec; assumption |].
    split; [apply get_timer_time_msec; assumption |].
    split; [Z.to_euclidean_division_equations; lia |].
    intros ->. f_equal. rewrite Z.sub_0_r. apply Z.div_mul. lia.
Qed.

Lemma timer_round_trip_witness :
  get_timer_time 5000000000 700
    (snd (set_timer_periodic 2500 (mkItimerval (mkTimeval 0 0) (mkTimeval 0 0))))
  = Some 2499.
Proof.
  apply (proj1 (proj2 (proj2 (proj2 (proj2
           (timer_round_trip 2500 (mkItimerval (mkTimeval 0 0) (mkTimeval 0 0))
              5000000000 700 ltac:(lia)))) ltac:(lia) ltac:(lia)
           ltac:(vm_compute; discriminate)))).
Defined.

(** X27: a negative number of milliseconds programs nothing: the
    [timeval] built from it has a negative field, [setitimer] refuses it,
    and both [set_timer] functions return [-1] with the timer as it
    was. *)
Theorem negative_timer_refused msec current :
  -9223372036854775 <= msec < 0 ->
  set_timer_single_shot msec current = (-1, current) /\
  set_timer_periodic msec current = (-1, current).
Proof.
  intros Hmsec.
  assert (Hinvalid :
            timeval_valid
              (mkTimeval (Z.quot msec 1000) (Z.rem (to_long (msec * 1000)) 1000000))
            = false).
  { unfold timeval_valid. simpl. rewrite to_long_small by lia.
    destruct (Z.leb_spec 0 (Z.quot msec 1000)); [| reflexivity].
    destruct (Z.leb_spec 0 (Z.rem (msec * 1000) 1000000)); [| reflexivity].
    exfalso. Z.to_euclidean_division_equations. lia. }
  split.
  - unfold set_timer_single_shot, setitimer. simpl it_value. rewrite Hinvalid.
    rewrite andb_false_r. reflexivity.
  - unfold set_timer_periodic, setitimer. simpl it_value. simpl it_interval.
    rewrite Hinvalid. reflexivity.
Qed.

Lemma negative_timer_refused_witness :
  let armed := mkItimerval (mkTimeval 0 0) (mkTimeval 3 0) in
  set_timer_single_shot (-1000) armed = (-1, armed) /\
  set_timer_periodic (-1000) armed = (-1, armed).
Proof.
  intros armed. apply (negative_timer_refused (-1000) armed). lia.
Defined.

(** X28: the mask functions touch one signal.  For a number that is
    not a signal, [block] and [unblock] return [-1] and leave the mask.
    For a signal, [block] returns 0, keeps every signal that was blocked,
    changes no other signal, and blocks the signal itself unless it is
    [SIGKILL] or [SIGSTOP]; the [unblock] that follows leaves the old mask
    without the signal.  [unblock_all] empties the mask. *)
Theorem mask_operations signal (mask : gset Z) :
  (valid_signal signal = false ->
   block signal mask = (-1, mask) /\ unblock signal mask = (-1, mask)) /\
  (valid_signal signal = true ->
   exists mask' : gset Z,
     block signal mask = (0, mask') /\
     mask ⊆ mask' /\
     (forall s, s <> signal -> (s ∈ mask' <-> s ∈ mask)) /\
     (signal <> SIGKILL -> signal <> SIGSTOP -> signal ∈ mask') /\
     (signal = SIGKILL \/ signal = SIGSTOP -> mask' = mask) /\
     unblock signal mask' = (0, mask ∖ {[ signal ]})) /\
  unblock_all mask = (0, ∅).
Proof.
  unfold block, unblock, unblock_all, sigaddset, pthread_sigmask.
  split; [| split].
  - intros Hinvalid. rewrite Hinvalid. split; reflexivity.
  - intros Hvalid. rewrite Hvalid.
    exists (mask ∪ (({[ signal ]} ∪ ∅) ∖ {[ SIGKILL; SIGSTOP ]})).
    split; [reflexivity |]. split; [set_solver |]. split; [set_solver |].
    split; [set_solver |]. split; [set_solver |]. f_equal; set_solver.
  - f_equal; set_solver.
Qed.

Lemma mask_operations_witness :
  (exists mask' : gset Z,
      block 10 {[ 2 ]} = (0, mask') /\ 2 ∈ mask' /\ 10 ∈ mask' /\
      unblock 10 mask' = (0, {[ 2 ]} ∖ {[ 10 ]})) /\
  block 0 {[ 2 ]} = (-1, {[ 2 ]}).
Proof.
  split.
  - destruct (proj1 (proj2 (mask_operations 10 {[ 2 ]})) eq_refl)
      as (mask' & Hblock & Hkept & _ & Hblocked & _ & Hunblock).
    exists mask'. split; [exact Hblock |]. split; [apply Hkept; set_solver |].
    split; [apply Hblocked; discriminate | exact Hunblock].
  - apply (proj1 (mask_operations 0 {[ 2 ]})). reflexivity.
Defined.

Lemma add_all_valid : forall signals (mask : gset Z),
  Forall (fun s => valid_signal s = true) signals ->
  add_all signals mask = Some (list_to_set signals ∪ mask).
Proof.
  induction signals as [| signo signals IH]; intros mask Hall; simpl.
  - f_equal. set_solver.
  - inversion Hall as [| ? ? Hhead Htail]; subst. unfold sigaddset. rewrite Hhead.
    rewrite (IH _ Htail). f_equal. set_solver.
Qed.

Lemma add_all_invalid : forall signals (mask : gset Z),
  Exists (fun s => valid_signal s = false) signals -> add_all signals mask = None.
Proof.
  induction signals as [| signo signals IH]; intros mask Hsome;
    inversion Hsome as [? ? Hhead | ? ? Htail]; subst; simpl; unfold sigaddset.
  - rewrite Hhead. reflexivity.
  - destruct (valid_signal signo); [apply IH, Htail | reflexivity].
Qed.

(** X29: [set_handler] installs all or nothing.  For a signal other
    than [SIGKILL] and [SIGSTOP] and a vector of signals, it returns 0 and
    the disposition of that signal becomes the handler, with the signals
    of the vector as mask, [SIGKILL] and [SIGSTOP] left out; the other
    dispositions stay.  When the number is not a signal, is [SIGKILL] or
    [SIGSTOP], or the vector holds a number that is not a signal, it
    returns [-1] and every disposition stays. *)
Theorem set_handler_all_or_nothing signal handler flags blocked table :
  (valid_signal signal = true -> signal <> SIGKILL -> signal <> SIGSTOP ->
   Forall (fun s => valid_signal s = true) blocked ->
   exists sa,
     set_handler signal handler flags blocked table = (0, <[signal := sa]> table) /\
     sa_handler sa = handler /\
     forall s, s ∈ sa_mask sa <-> s ∈ blocked /\ s <> SIGKILL /\ s <> SIGSTOP) /\
  (valid_signal signal = false \/ signal = SIGKILL \/ signal = SIGSTOP \/
   Exists (fun s => valid_signal s = false) blocked ->
   set_handler signal handler flags blocked table = (-1, table)).
Proof.
  unfold set_handler, sigaction. split.
  - intros Hvalid Hkill Hstop Hblocked. rewrite (add_all_valid _ _ Hblocked), Hvalid.
    destruct (Z.eqb_spec signal SIGKILL); [contradiction |].
    destruct (Z.eqb_spec signal SIGSTOP); [contradiction |].
    eexists. split; [reflexivity |]. split; [reflexivity |].
    intros s. cbn [sa_mask]. set_solver.
  - intros [Hinvalid | [-> | [-> | Hblocked]]].
    + destruct (add_all blocked ∅); [rewrite Hinvalid |]; reflexivity.
    + destruct (add_all blocked ∅); reflexivity.
    + destruct (add_all blocked ∅); reflexivity.
    + rewrite (add_all_invalid _ _ Hblocked). reflexivity.
Qed.

Lemma set_handler_all_or_nothing_witness :
  (exists sa,
      set_handler 10 (Handler 1) 0 [2; 9; 15] ∅ = (0, <[10 := sa]> ∅) /\
      sa_handler sa = Handler 1 /\
      forall s, s ∈ sa_mask sa <-> s ∈ [2; 9; 15] /\ s <> SIGKILL /\ s <> SIGSTOP) /\
  ignore SIGKILL ∅ = (-1, ∅) /\
  set_handler 10 (Handler 1) 0 [2; 99] ∅ = (-1, ∅).
Proof.
  split; [| split].
  - apply (proj1 (set_handler_all_or_nothing 10 (Handler 1) 0 [2; 9; 15] ∅));
      first [reflexivity | discriminate | repeat constructor].
  - apply (proj2 (set_handler_all_or_nothing SIGKILL SIG_IGN 0 [] ∅)). right. left. reflexivity.
  - apply (proj2 (set_handler_all_or_nothing 10 (Handler 1) 0 [2; 99] ∅)).
    right. right. right. apply Exists_cons_tl, Exists_cons_hd. reflexivity.
Defined.

End SignalSpec.
